(** * mlx_downloader: cache-status inference and directory-name codec

    A shallow embedding of [src/mlx_downloader.py] and the properties of its
    four layers: the directory-name codec (line 88 and lines 162-171), the
    cache inspector ([get_model_status], [discover_local_models]), the cache
    mutator ([clean_incomplete_model], [remove_model]) and the orchestration
    ([download_model]).

    Modelling choices.
    - Python [str] values are [string]s, sequences of bytes.  The characters
      the program inspects ([/], [-], [.], [*] and the letters of its
      literals) are ASCII, and byte order on UTF-8 agrees with code-point
      order, so splitting, matching and sorting act as on code points.
    - The file system is a tree rooted at [Path.home()]; names are compared
      exactly, and a symbolic link is seen as what it points to.
    - A stateful function is a function from the world to a result, a new
      world and the trace of what it printed, tried to delete and asked of
      its collaborators.  An exception caught on the spot is a [false] or
      [None] result of the call that raised it.
    - The two external collaborators, [snapshot_download] and [load], are
      parameters: arbitrary functions of the file system and of a state of
      their own.  So are, for the command line, the builtins [int] and
      [input]. *)

From Stdlib Require Import String Ascii List Bool Arith NArith Lia.
From Stdlib Require Import Sorting.Mergesort Sorting.Sorted Sorting.Permutation.
From Stdlib Require Import Structures.Orders.
From Stdlib Require Import ZArith.
From Equations Require Import Equations.
Import ListNotations.

Open Scope string_scope.
Open Scope list_scope.

(** ** Python string operations used by the program *)

Module PyStr.

(** [s.startswith(p)] *)
Definition startswith (s p : string) : bool := String.prefix p s.

(** [s[n:]] *)
Fixpoint drop (n : nat) (s : string) : string :=
  match n, s with
  | O, _ => s
  | S _, EmptyString => EmptyString
  | S k, String _ s' => drop k s'
  end.

(** [s[:n]] *)
Fixpoint take (n : nat) (s : string) : string :=
  match n, s with
  | O, _ => EmptyString
  | S _, EmptyString => EmptyString
  | S k, String c s' => String c (take k s')
  end.

(** [s.endswith(suf)] *)
Definition endswith (s suf : string) : bool :=
  Nat.leb (String.length suf) (String.length s)
  && String.eqb (drop (String.length s - String.length suf) s) suf.

(** [s.find(sub)], with [None] for Python's [-1]. *)
Fixpoint find (sub s : string) : option nat :=
  if String.prefix sub s then Some 0
  else match s with
       | EmptyString => None
       | String _ s' => option_map S (find sub s')
       end.

(** [sub in s] *)
Definition contains (sub s : string) : bool :=
  match find sub s with Some _ => true | None => false end.

(** [s.replace(old, new)] for a one-character [old]. *)
Fixpoint replace (old : ascii) (new s : string) : string :=
  match s with
  | EmptyString => EmptyString
  | String c s' =>
      if Ascii.eqb c old then (new ++ replace old new s')%string
      else String c (replace old new s')
  end.

(** [sep.join(parts)] *)
Definition join (sep : string) (parts : list string) : string :=
  String.concat sep parts.

Lemma prefix_length (a b : string) :
  String.prefix a b = true -> String.length a <= String.length b.
Proof.
  revert b; induction a as [|c a IH]; intros [|d b]; simpl; try lia; try discriminate.
  destruct (ascii_dec c d); [|discriminate].
  intros H. apply IH in H. lia.
Qed.

Lemma find_unfold (sub s : string) :
  find sub s =
  if String.prefix sub s then Some 0
  else match s with
       | EmptyString => None
       | String _ s' => option_map S (find sub s')
       end.
Proof. destruct s; reflexivity. Qed.

Lemma find_bound (sub s : string) (i : nat) :
  find sub s = Some i -> i + String.length sub <= String.length s.
Proof.
  revert i; induction s as [|c s IH]; intros i; rewrite find_unfold;
    destruct (String.prefix sub _) eqn:P.
  - intros [= <-]. apply prefix_length in P. lia.
  - discriminate.
  - intros [= <-]. apply prefix_length in P. lia.
  - destruct (find sub s) as [j|]; simpl; [|discriminate].
    intros [= <-]. specialize (IH j eq_refl). lia.
Qed.

Lemma drop_length (n : nat) (s : string) :
  String.length (drop n s) = String.length s - n.
Proof.
  revert s; induction n as [|n IH]; intros [|c s]; simpl; auto.
Qed.

Definition inspect {A : Type} (x : A) : {y : A | x = y} := exist _ x eq_refl.

(** The loop of [s.split(sep)] for a non-empty separator [String c sep']:
    cut at the leftmost occurrence, continue after it. *)
Equations? split_loop (c : ascii) (sep' : string) (s : string) : list string
  by wf (String.length s) lt :=
  split_loop c sep' s with inspect (find (String c sep') s) := {
    | exist _ None _ => [s]
    | exist _ (Some i) Hi =>
        take i s :: split_loop c sep' (drop (i + String.length (String c sep')) s) }.
Proof.
  apply find_bound in Hi. rewrite drop_length. simpl in *. lia.
Qed.

(** [s.split(sep)]; [None] stands for the [ValueError] that Python raises
    on an empty separator. *)
Definition split (sep s : string) : option (list string) :=
  match sep with
  | EmptyString => None
  | String c sep' => Some (split_loop c sep' s)
  end.

End PyStr.

Example split_ex1 : PyStr.split "--" "a---b" = Some ["a"; "-b"].
Proof. reflexivity. Qed.

Example split_ex2 : PyStr.split "--" "org--a--b" = Some ["org"; "a"; "b"].
Proof. reflexivity. Qed.

Example split_ex3 : PyStr.split "--" "" = Some [""].
Proof. reflexivity. Qed.

(** ** Glob patterns ([Path.glob] on one path segment)

    The three patterns of the program, ["*.incomplete"], ["*"] and
    ["models--*"], are made of literal characters and [*] only; [*] matches
    any run of characters, the empty one and a leading dot included. *)

Inductive tok : Type :=
  | Star : tok
  | Lit : ascii -> tok.

Fixpoint parse_pattern (pat : string) : list tok :=
  match pat with
  | EmptyString => []
  | String c pat' =>
      (if Ascii.eqb c "*" then Star else Lit c) :: parse_pattern pat'
  end.

Fixpoint tokmatch (p : list tok) (s : string) {struct p} : bool :=
  match p with
  | [] => match s with EmptyString => true | String _ _ => false end
  | Lit c :: p' =>
      match s with
      | EmptyString => false
      | String d s' => Ascii.eqb c d && tokmatch p' s'
      end
  | Star :: p' =>
      (fix star (s : string) : bool :=
         tokmatch p' s
         || match s with EmptyString => false | String _ s' => star s' end) s
  end.

Definition fnmatch (name pat : string) : bool :=
  tokmatch (parse_pattern pat) name.

(** ** The file system

    A tree rooted at [Path.home()].  A directory lists its entries in the
    order the operating system enumerates them. *)

#[warnings="-register-all"]
Inductive node : Type :=
  | File : node
  | Dir : list (string * node) -> node.

Definition path : Type := list string.

Fixpoint lookup_entry (n : string) (es : list (string * node)) : option node :=
  match es with
  | [] => None
  | (m, x) :: es' => if String.eqb m n then Some x else lookup_entry n es'
  end.

Fixpoint lookup (p : path) (x : node) {struct p} : option node :=
  match p with
  | [] => Some x
  | n :: p' =>
      match x with
      | File => None
      | Dir es =>
          match lookup_entry n es with
          | Some y => lookup p' y
          | None => None
          end
      end
  end.

(** [p.exists()] *)
Definition path_exists (p : path) (fs : node) : bool :=
  match lookup p fs with Some _ => true | None => false end.

(** [p.is_dir()] *)
Definition is_dir (p : path) (fs : node) : bool :=
  match lookup p fs with Some (Dir _) => true | _ => false end.

(** [p.name] *)
Definition path_name (p : path) : string := last p "".

(** Names of the entries of directory [p]; nothing when [p] is not a
    directory. *)
Definition listdir (p : path) (fs : node) : list string :=
  match lookup p fs with
  | Some (Dir es) => map fst es
  | _ => []
  end.

(** [list(p.glob(pat))] *)
Definition glob (p : path) (pat : string) (fs : node) : list path :=
  map (fun n => p ++ [n]) (filter (fun n => fnmatch n pat) (listdir p fs)).

(** The tree without the entry at [p]. *)
Fixpoint remove_at (p : path) (x : node) {struct p} : node :=
  match p with
  | [] => x
  | n :: p' =>
      match x with
      | File => File
      | Dir es =>
          match p' with
          | [] => Dir (filter (fun e => negb (String.eqb (fst e) n)) es)
          | _ :: _ =>
              Dir (map (fun e => if String.eqb (fst e) n
                                 then (fst e, remove_at p' (snd e)) else e) es)
          end
      end
  end.

(** The tree with the node at [p] replaced by [y]. *)
Fixpoint replace_at (p : path) (y : node) (x : node) {struct p} : node :=
  match p with
  | [] => y
  | n :: p' =>
      match x with
      | File => File
      | Dir es =>
          Dir (map (fun e => if String.eqb (fst e) n
                             then (fst e, replace_at p' y (snd e)) else e) es)
      end
  end.

(** The recursion of [shutil.rmtree] below [p]: entries are removed in
    listing order, a directory after its contents; the first refusal aborts
    and leaves the rest in place.  [None]: everything was removed;
    [Some r]: an error was raised and [r] is what remains. *)
Fixpoint rm_node (denied : path -> bool) (p : path) (x : node) {struct x}
  : option node :=
  match x with
  | File => if denied p then Some File else None
  | Dir es =>
      let fix go (es : list (string * node)) : list (string * node) :=
        match es with
        | [] => []
        | (n, y) :: rest =>
            match rm_node denied (p ++ [n]) y with
            | None => go rest
            | Some y' => (n, y') :: rest
            end
        end in
      match go es with
      | [] => if denied p then Some (Dir []) else None
      | r :: rs => Some (Dir (r :: rs))
      end
  end.

(** ** Statuses, messages and events *)

(** The five status strings returned by [get_model_status]. *)
Inductive status : Type :=
  | not_downloaded | no_blobs | incomplete | complete | unknown.

Definition status_eqb (a b : status) : bool :=
  match a, b with
  | not_downloaded, not_downloaded | no_blobs, no_blobs
  | incomplete, incomplete | complete, complete | unknown, unknown => true
  | _, _ => false
  end.

(** One constructor per [print] of the modelled functions, with the values
    its f-string interpolates (the text of a caught exception is left
    out). *)
Inductive msg : Type :=
  | MsgAlreadyComplete (model_name : string)
  | MsgVerifying
  | MsgVerified (model_name : string)
  | MsgVerificationFailed
  | MsgRedownloading
  | MsgFoundIncomplete (n : nat)
  | MsgDownloading (model_name : string)
  | MsgDownloadedTo (local_path : string)
  | MsgMayBeIncomplete (final_status : status)
  | MsgDownloadFailed
  | MsgCleaning (n : nat) (model_name : string)
  | MsgRemoved (file_name : string)
  | MsgFailedToRemoveFile (file_name : string)
  | MsgNotDownloadedYet (model_name : string)
  | MsgAppearsComplete (model_name : string)
  | MsgNotFoundInCache (model_name : string)
  | MsgCompletelyRemoved (model_name : string)
  | MsgFailedToRemove (model_name : string).

(** What a run does that is visible from outside, in order: lines printed,
    deletions attempted (with their outcome) and calls to the two external
    collaborators (with their outcome). *)
Inductive event : Type :=
  | EvPrint (m : msg)
  | EvUnlink (p : path) (ok : bool)
  | EvRmtree (p : option path) (ok : bool)
  | EvFetch (repo_id : string) (force_download : bool) (local_path : option string)
  | EvLoad (model_name : string) (ok : bool).

(** [sorted] on strings: the order is total and antisymmetric, so the sorted
    arrangement of a list is unique and any sorting algorithm computes it. *)
Module StringOrder <: TotalLeBool.
Definition t := string.
Definition leb := String.leb.
Theorem leb_total : forall a1 a2, leb a1 a2 = true \/ leb a2 a1 = true.
Proof. exact String.leb_total. Qed.
End StringOrder.

Module StringSort := Sort StringOrder.

Definition sorted (l : list string) : list string := StringSort.sort l.

(** Lines 162-171 of [discover_local_models]: the model name a cache
    directory name stands for; [None] when nothing is appended. *)
Definition decode_dir_name (dir_name : string) : option string :=
  if PyStr.startswith dir_name "models--" then
    let model_name := PyStr.drop 8 dir_name in
    match PyStr.split "--" model_name with
    | Some parts =>
        if Nat.leb 2 (length parts) then
          let org := hd "" parts in
          let model_parts := tl parts in
          Some (org ++ "/" ++ PyStr.join "-" model_parts)%string
        else None
    | None => None
    end
  else None.

Section Program.

(** State of the external collaborators (the hub, the network, ...). *)
Context {E : Type}.

(** [snapshot_download(repo_id, ..., force_download)]: [None] when it raises;
    it may change the file system either way. *)
Variable snapshot_download :
  string -> bool -> node -> E -> option string * node * E.

(** [load(model_name)]: [false] when it raises. *)
Variable load : string -> node -> E -> bool * node * E.

Record world : Type := World {
  fs : node;
  (** paths the operating system refuses to remove *)
  denied : path -> bool;
  ext : E
}.

Definition set_fs (f : node) (w : world) : world :=
  World f (denied w) (ext w).

(** State passing with an event trace. *)
Definition M (A : Type) : Type := world -> A * world * list event.

Definition ret {A : Type} (a : A) : M A := fun w => (a, w, []).

Definition bind {A B : Type} (m : M A) (k : A -> M B) : M B :=
  fun w =>
    let '(a, w1, ev1) := m w in
    let '(b, w2, ev2) := k a w1 in
    (b, w2, ev1 ++ ev2).

Notation "x <- m ;; k" := (bind m (fun x => k))
  (at level 61, m at next level, right associativity).
Notation "' pat <- m ;; k" := (bind m (fun x => match x with pat => k end))
  (at level 61, pat pattern, m at next level, right associativity).
Notation "m ;; k" := (bind m (fun _ => k))
  (at level 61, right associativity).

Definition gets {A : Type} (f : node -> A) : M A := fun w => (f (fs w), w, []).

Definition print (m : msg) : M unit := fun w => (tt, w, [EvPrint m]).

(** [p.unlink()]; [false] when it raises: [p] is missing, is a directory,
    or the system refuses. *)
Definition path_unlink (p : path) : M bool :=
  fun w =>
    match lookup p (fs w) with
    | Some File =>
        if denied w p then (false, w, [EvUnlink p false])
        else (true, set_fs (remove_at p (fs w)) w, [EvUnlink p true])
    | _ => (false, w, [EvUnlink p false])
    end.

(** [shutil.rmtree(p)]; [false] when it raises. *)
Definition shutil_rmtree (p : option path) : M bool :=
  fun w =>
    match p with
    | None => (false, w, [EvRmtree p false])
    | Some q =>
        match lookup q (fs w) with
        | Some (Dir es) =>
            match rm_node (denied w) q (Dir es) with
            | None => (true, set_fs (remove_at q (fs w)) w, [EvRmtree p true])
            | Some r => (false, set_fs (replace_at q r (fs w)) w, [EvRmtree p false])
            end
        | _ => (false, w, [EvRmtree p false])
        end
    end.

Definition call_snapshot_download (repo_id : string) (force_download : bool)
  : M (option string) :=
  fun w =>
    let '(r, f, e) := snapshot_download repo_id force_download (fs w) (ext w) in
    (r, World f (denied w) e, [EvFetch repo_id force_download r]).

Definition call_load (model_name : string) : M bool :=
  fun w =>
    let '(ok, f, e) := load model_name (fs w) (ext w) in
    (ok, World f (denied w) e, [EvLoad model_name ok]).

(** ** The program *)

(** [get_cache_path], relative to the home directory. *)
Definition get_cache_path : path := [".cache"; "huggingface"; "hub"].

(** Line 88: the directory name of a model. *)
Definition model_dir_name (model_name : string) : string :=
  ("models--" ++ PyStr.replace "/" "--" model_name)%string.

Definition get_model_status (model_name : string) (f : node)
  : status * option path * list path :=
  let cache_path := get_cache_path in
  let model_path := cache_path ++ [model_dir_name model_name] in
  if negb (path_exists model_path f) then (not_downloaded, None, [])
  else
    let blobs_path := model_path ++ ["blobs"] in
    if negb (path_exists blobs_path f) then (no_blobs, Some model_path, [])
    else
      let incomplete_files := glob blobs_path "*.incomplete" f in
      let all_files := glob blobs_path "*" f in
      match incomplete_files with
      | _ :: _ => (incomplete, Some model_path, incomplete_files)
      | [] =>
          let snapshots_path := model_path ++ ["snapshots"] in
          if path_exists snapshots_path f
             && match glob snapshots_path "*" f with [] => false | _ :: _ => true end
          then (complete, Some model_path, all_files)
          else (unknown, Some model_path, all_files)
      end.

(** The [for] loop of [clean_incomplete_model]. *)
Fixpoint unlink_each (files : list path) : M unit :=
  match files with
  | [] => ret tt
  | file_path :: rest =>
      ok <- path_unlink file_path ;;
      print (if ok then MsgRemoved (path_name file_path)
             else MsgFailedToRemoveFile (path_name file_path)) ;;
      unlink_each rest
  end.

Definition clean_incomplete_model (model_name : string) : M bool :=
  ' (st, _, files) <- gets (get_model_status model_name) ;;
  let incomplete_files := if status_eqb st incomplete then files else [] in
  if status_eqb st incomplete then
    print (MsgCleaning (length incomplete_files) model_name) ;;
    unlink_each incomplete_files ;;
    ret true
  else if status_eqb st not_downloaded then
    print (MsgNotDownloadedYet model_name) ;;
    ret false
  else
    print (MsgAppearsComplete model_name) ;;
    ret false.

Definition remove_model (model_name : string) : M bool :=
  ' (st, model_path, _) <- gets (get_model_status model_name) ;;
  if status_eqb st not_downloaded then
    print (MsgNotFoundInCache model_name) ;;
    ret false
  else
    ok <- shutil_rmtree model_path ;;
    if ok then
      print (MsgCompletelyRemoved model_name) ;;
      ret true
    else
      print (MsgFailedToRemove model_name) ;;
      ret false.

Definition discover_local_models : M (list string) :=
  let cache_path := get_cache_path in
  f <- gets (fun f => f) ;;
  if negb (path_exists cache_path f) then ret []
  else
    let models :=
      flat_map
        (fun model_dir =>
           if is_dir model_dir f then
             match decode_dir_name (path_name model_dir) with
             | Some model_name => [model_name]
             | None => []
             end
           else [])
        (glob cache_path "models--*" f) in
    ret (sorted models).

(** Lines 42-78 of [download_model]: fetch, re-inspect, verify. *)
Definition download_and_verify (model_name : string)
    (verify force_redownload : bool) : M bool :=
  print (MsgDownloading model_name) ;;
  r <- call_snapshot_download model_name force_redownload ;;
  match r with
  | Some local_path =>
      print (MsgDownloadedTo local_path) ;;
      ' (final_status, _, _) <- gets (get_model_status model_name) ;;
      (if negb (status_eqb final_status complete)
       then print (MsgMayBeIncomplete final_status) else ret tt) ;;
      if verify then
        print MsgVerifying ;;
        ok <- call_load model_name ;;
        if ok then
          print (MsgVerified model_name) ;;
          ret true
        else
          print MsgVerificationFailed ;;
          ret false
      else ret true
  | None =>
      print MsgDownloadFailed ;;
      ret false
  end.

Definition download_model (model_name : string)
    (verify force_redownload : bool) : M bool :=
  ' (st, _, incomplete_files) <- gets (get_model_status model_name) ;;
  (** lines 19-36: [Some b] when the function returns [b] there *)
  early <-
    (if status_eqb st complete && negb force_redownload then
       print (MsgAlreadyComplete model_name) ;;
       if verify then
         print MsgVerifying ;;
         ok <- call_load model_name ;;
         if ok then
           print (MsgVerified model_name) ;;
           ret (Some true)
         else
           print MsgVerificationFailed ;;
           print MsgRedownloading ;;
           ret None
       else ret (Some true)
     else ret None) ;;
  match early with
  | Some b => ret b
  | None =>
      (if status_eqb st incomplete then
         print (MsgFoundIncomplete (length incomplete_files)) ;;
         clean_incomplete_model model_name ;;
         ret tt
       else ret tt) ;;
      download_and_verify model_name verify force_redownload
  end.

End Program.

Arguments world E : clear implicits.

(** ** The command line: [list_mlx_models] and [main] *)

(** One constructor per [print] of [list_mlx_models] and [main]. *)
Inductive cli_msg : Type :=
  | MsgNoModelsFound
  | MsgCachePath (cache_path : path)
  | MsgListHeader (n : nat)
  | MsgListLine (i : nat) (st : status) (model : string) (partial_files : nat)
  | MsgUsage
  | MsgUseDirectName
  | MsgInvalidNumber (n : nat)
  | MsgValidNumber
  | MsgNoModelsInCache
  | MsgStatus (model_name : string) (st : status)
  | MsgStatusPath (model_path : path)
  | MsgStatusFiles (n : nat)
  | MsgStatusIncomplete (file_names : list string)
  | MsgCancelled
  | MsgCleanedCount (n : nat).

(** The trace of the command line: what the functions above it did, what
    it printed itself, and what it asked on standard input. *)
Inductive cli_event : Type :=
  | Core (e : event)
  | Say (m : cli_msg)
  | Asked (model_name : string) (answer : string).

(** [s.lower()] on ASCII letters; no other character lowers to an ASCII
    letter, so comparing the result with ["y"] is exact. *)
Definition lower_char (c : ascii) : ascii :=
  let n := nat_of_ascii c in
  if Nat.leb 65 n && Nat.leb n 90 then ascii_of_nat (n + 32) else c.

Fixpoint lower (s : string) : string :=
  match s with
  | EmptyString => EmptyString
  | String c s' => String (lower_char c) (lower s')
  end.

Section CommandLine.

Context {E : Type}.
Variable snapshot_download : string -> bool -> node -> E -> option string * node * E.
Variable load : string -> node -> E -> bool * node * E.

(** [int(s)]: [None] when it raises [ValueError]. *)
Variable py_int : string -> option Z.

(** [input(prompt)], the prompt naming a model; the user is taken to
    answer (no end of input, no interrupt). *)
Variable read_line : string -> E -> string * E.

Definition C (A : Type) : Type := world E -> A * world E * list cli_event.

Definition cret {A : Type} (a : A) : C A := fun w => (a, w, []).

Definition cbind {A B : Type} (m : C A) (k : A -> C B) : C B :=
  fun w =>
    let '(a, w1, ev1) := m w in
    let '(b, w2, ev2) := k a w1 in
    (b, w2, ev1 ++ ev2).

Notation "x <- m ;; k" := (cbind m (fun x => k))
  (at level 61, m at next level, right associativity).
Notation "' pat <- m ;; k" := (cbind m (fun x => match x with pat => k end))
  (at level 61, pat pattern, m at next level, right associativity).
Notation "m ;; k" := (cbind m (fun _ => k))
  (at level 61, right associativity).

(** A call to one of the functions above. *)
Definition lift {A : Type} (m : M A) : C A :=
  fun w => let '(a, w', ev) := m w in (a, w', map Core ev).

Definition say (m : cli_msg) : C unit := fun w => (tt, w, [Say m]).

Definition input (model_name : string) : C string :=
  fun w =>
    let '(answer, e) := read_line model_name (ext w) in
    (answer, World (fs w) (denied w) e, [Asked model_name answer]).

(** The [for] loop of [list_mlx_models], [i] counting from 1. *)
Fixpoint list_lines (i : nat) (models : list string) : C unit :=
  match models with
  | [] => cret tt
  | model :: rest =>
      ' (st, _, files) <- lift (gets (get_model_status model)) ;;
      let incomplete_files := if status_eqb st incomplete then files else [] in
      say (MsgListLine i st model (length incomplete_files)) ;;
      list_lines (S i) rest
  end.

Definition list_mlx_models : C (list string) :=
  models <- lift discover_local_models ;;
  match models with
  | [] =>
      say MsgNoModelsFound ;;
      say (MsgCachePath get_cache_path) ;;
      cret models
  | _ :: _ =>
      say (MsgListHeader (length models)) ;;
      list_lines 1 models ;;
      cret models
  end.

(** [0 <= index < len(models)] *)
Definition in_range (index : Z) (models : list string) : bool :=
  (0 <=? index)%Z && (index <? Z.of_nat (length models))%Z.

(** [models[index]] for an index in range. *)
Definition item (models : list string) (index : Z) : string :=
  nth (Z.to_nat index) models "".

(** Lines 337-342: a model name given directly. *)
Definition main_direct (model_name : string) : C unit :=
  lift (clean_incomplete_model model_name) ;;
  lift (download_model snapshot_download load model_name true false) ;;
  cret tt.

(** Lines 232-247: [download <num>]. *)
Definition main_download (arg : string) : C unit :=
  models <- lift discover_local_models ;;
  match models with
  | [] => say MsgUseDirectName
  | _ :: _ =>
      match py_int arg with
      | None => say MsgValidNumber
      | Some k =>
          let index := (k - 1)%Z in
          if in_range index models then
            let model_name := item models index in
            lift (clean_incomplete_model model_name) ;;
            lift (download_model snapshot_download load model_name true false) ;;
            cret tt
          else say (MsgInvalidNumber (length models))
      end
  end.

(** Lines 252-267 and 302-317: a number or a model name; [None] when the
    command returns there. *)
Definition select_model (model_arg : string) : C (option string) :=
  match py_int model_arg with
  | Some k =>
      let index := (k - 1)%Z in
      models <- lift discover_local_models ;;
      match models with
      | [] => say MsgNoModelsInCache ;; cret None
      | _ :: _ =>
          if in_range index models then cret (Some (item models index))
          else say (MsgInvalidNumber (length models)) ;; cret None
      end
  | None => cret (Some model_arg)
  end.

(** Lines 250-276: [status <model|num>]. *)
Definition main_status (model_arg : string) : C unit :=
  sel <- select_model model_arg ;;
  match sel with
  | None => cret tt
  | Some model_name =>
      ' (st, model_path, files) <- lift (gets (get_model_status model_name)) ;;
      say (MsgStatus model_name st) ;;
      (match model_path with
       | Some p => say (MsgStatusPath p)
       | None => cret tt
       end) ;;
      match files with
      | [] => cret tt
      | _ :: _ =>
          say (MsgStatusFiles (length files)) ;;
          if status_eqb st incomplete
          then say (MsgStatusIncomplete (map path_name files))
          else cret tt
      end
  end.

(** Lines 279-297: [clean <model|num>]. *)
Definition main_clean (model_arg : string) : C unit :=
  match py_int model_arg with
  | Some k =>
      let index := (k - 1)%Z in
      models <- lift discover_local_models ;;
      match models with
      | [] => say MsgNoModelsInCache
      | _ :: _ =>
          if in_range index models then
            lift (clean_incomplete_model (item models index)) ;; cret tt
          else say (MsgInvalidNumber (length models))
      end
  | None => lift (clean_incomplete_model model_arg) ;; cret tt
  end.

(** Lines 300-323: [remove <model|num>]. *)
Definition main_remove (model_arg : string) : C unit :=
  sel <- select_model model_arg ;;
  match sel with
  | None => cret tt
  | Some model_name =>
      confirm <- input model_name ;;
      if String.eqb (lower confirm) "y" then
        lift (remove_model model_name) ;; cret tt
      else say MsgCancelled
  end.

(** The [for] loop of [clean-all]. *)
Fixpoint clean_each (models : list string) (cleaned_count : nat) : C nat :=
  match models with
  | [] => cret cleaned_count
  | model :: rest =>
      cleaned <- lift (clean_incomplete_model model) ;;
      clean_each rest (if cleaned then cleaned_count + 1 else cleaned_count)
  end.

(** Lines 326-335: [clean-all]. *)
Definition main_clean_all : C unit :=
  models <- lift discover_local_models ;;
  match models with
  | [] => say MsgNoModelsInCache
  | _ :: _ =>
      cleaned_count <- clean_each models 0 ;;
      say (MsgCleanedCount cleaned_count)
  end.

(** [main], with [sys.argv] as [argv]. *)
Definition main (argv : list string) : C unit :=
  if Nat.ltb (length argv) 2 then
    say MsgUsage ;;
    list_mlx_models ;;
    cret tt
  else
    let command := nth 1 argv "" in
    if String.eqb command "list" then
      list_mlx_models ;; cret tt
    else if String.eqb command "download" && Nat.eqb (length argv) 3 then
      main_download (nth 2 argv "")
    else if String.eqb command "status" && Nat.eqb (length argv) 3 then
      main_status (nth 2 argv "")
    else if String.eqb command "clean" && Nat.eqb (length argv) 3 then
      main_clean (nth 2 argv "")
    else if String.eqb command "remove" && Nat.eqb (length argv) 3 then
      main_remove (nth 2 argv "")
    else if String.eqb command "clean-all" then
      main_clean_all
    else
      main_direct (nth 1 argv "").

End CommandLine.

(** ** Vocabulary of the specification *)

(** No [*] in a string. *)
Fixpoint star_free (s : string) : bool :=
  match s with
  | EmptyString => true
  | String c s' => negb (Ascii.eqb c "*") && star_free s'
  end.

(** The directory of a model under the cache root, and its two parts. *)
Definition root_path (model_name : string) : path :=
  get_cache_path ++ [model_dir_name model_name].

Definition blobs_path (model_name : string) : path :=
  root_path model_name ++ ["blobs"].

Definition snapshots_path (model_name : string) : path :=
  root_path model_name ++ ["snapshots"].

(** The partial-download marker suffix. *)
Definition marker : string := ".incomplete".

Definition has_marker (file_name : string) : bool :=
  PyStr.endswith file_name marker.

(** The classification as the specification words it: five cases, the
    first that applies wins. *)
Definition spec_inspect_status (model_name : string) (f : node) : status :=
  if negb (path_exists (root_path model_name) f) then not_downloaded
  else if negb (path_exists (blobs_path model_name) f) then no_blobs
  else if existsb has_marker (listdir (blobs_path model_name) f) then incomplete
  else if path_exists (snapshots_path model_name) f
          && negb (Nat.eqb (length (listdir (snapshots_path model_name) f)) 0)
  then complete
  else unknown.

(** The paths of the entries of [blobs] that carry the marker, and of all
    its entries. *)
Definition marked_blobs (model_name : string) (f : node) : list path :=
  map (fun n => blobs_path model_name ++ [n])
      (filter has_marker (listdir (blobs_path model_name) f)).

Definition all_blobs (model_name : string) (f : node) : list path :=
  map (fun n => blobs_path model_name ++ [n]) (listdir (blobs_path model_name) f).

(** A list of name parts that [split] on [--] gives back from their
    [--]-joined form: no part contains [--], and no part but the last ends
    with [-]. *)
Fixpoint parts_ok (parts : list string) : Prop :=
  match parts with
  | [] => True
  | p :: rest =>
      PyStr.contains "--" p = false /\
      match rest with
      | [] => True
      | _ :: _ => PyStr.endswith p "-" = false /\ parts_ok rest
      end
  end.

(** The [models--*] directories under the cache root, and the model names
    they decode to (directories that do not decode contribute nothing). *)
Definition model_dirs (f : node) : list string :=
  filter (fun n => PyStr.startswith n "models--" && is_dir (get_cache_path ++ [n]) f)
         (listdir get_cache_path f).

Definition decoded_models (f : node) : list string :=
  flat_map (fun n => match decode_dir_name n with
                     | Some model_name => [model_name]
                     | None => []
                     end)
           (model_dirs f).

(** Lexicographic order on strings. *)
Definition str_le (a b : string) : Prop := String.leb a b = true.

(** The paths of the deletions attempted in a trace, in order. *)
Definition unlink_attempts (ev : list event) : list path :=
  flat_map (fun e => match e with EvUnlink p _ => [p] | _ => [] end) ev.

(** Events that are neither a fetch nor a load. *)
Definition is_local (e : event) : bool :=
  match e with
  | EvFetch _ _ _ | EvLoad _ _ => false
  | _ => true
  end.

Definition is_fetch (e : event) : bool :=
  match e with EvFetch _ _ _ => true | _ => false end.

(** A trace without a fetch. *)
Definition no_fetch (ev : list event) : bool :=
  forallb (fun e => negb (is_fetch e)) ev.

(** What follows the first fetch of a trace. *)
Fixpoint after_fetch (ev : list event) : list event :=
  match ev with
  | [] => []
  | EvFetch _ _ _ :: rest => rest
  | _ :: rest => after_fetch rest
  end.

(** Failures of the collaborators surface in the result [r] of a run with
    trace [ev]: a failed fetch gives [False]; with [verify], a successful
    fetch is followed by a load whose outcome is the result; a failed load
    after the fetch gives [False]. *)
Definition failures_surface (model_name : string) (verify force : bool)
    (r : bool) (ev : list event) : Prop :=
  (In (EvFetch model_name force None) ev -> r = false) /\
  (verify = true ->
   forall local_path, In (EvFetch model_name force (Some local_path)) ev ->
   exists ok, In (EvLoad model_name ok) (after_fetch ev) /\ r = ok) /\
  (In (EvLoad model_name false) (after_fetch ev) -> r = false).

(** How many of [files] were there before and are gone after. *)
Definition removed_count (files : list path) (before after : node) : nat :=
  length (filter (fun p => path_exists p before && negb (path_exists p after))
                 files).

(** Python's [int(b)]: [bool] is a subtype of [int], [True == 1]. *)
Definition py_int (b : bool) : nat := if b then 1 else 0.

(** ** Sample cache states *)

(** A home directory whose cache root holds [es]. *)
Definition home_with (es : list (string * node)) : node :=
  Dir [(".cache", Dir [("huggingface", Dir [("hub", Dir es)])])].

(** One model with a partial blob, a finished blob and a snapshot. *)
Definition cache_partial : node :=
  home_with
    [("models--acme--Foo-7B",
      Dir [("blobs", Dir [("abc123.incomplete", File); ("def456", File)]);
           ("snapshots", Dir [("main", Dir [("weights", File)])])])].

(** One model with two partial blobs. *)
Definition cache_two_partial : node :=
  home_with
    [("models--acme--Foo-7B",
      Dir [("blobs", Dir [("abc123.incomplete", File);
                          ("def456.incomplete", File)])])].

(** One complete model. *)
Definition cache_complete : node :=
  home_with
    [("models--acme--Foo-7B",
      Dir [("blobs", Dir [("def456", File)]);
           ("snapshots", Dir [("main", Dir [("weights", File)])])])].

(** A well-formed model directory, a [models--] directory without an
    organization, and a stray directory. *)
Definition cache_mixed : node :=
  home_with
    [("models--zeta--Bar", Dir []);
     ("models--orphan", Dir []);
     ("randomdir", Dir []);
     ("models--acme--Foo-7B", Dir [])].

(** Two models side by side, the first with a partial blob. *)
Definition cache_two_models : node :=
  home_with
    [("models--acme--Foo-7B",
      Dir [("blobs", Dir [("abc123.incomplete", File); ("def456", File)]);
           ("snapshots", Dir [("main", Dir [("weights", File)])])]);
     ("models--zeta--Bar",
      Dir [("blobs", Dir [("aaa111", File)]);
           ("snapshots", Dir [("main", Dir [("weights", File)])])])].

Definition nothing_denied : path -> bool := fun _ => false.

(** [int] on three sample arguments. *)
Definition sample_int (s : string) : option Z :=
  if String.eqb s "1" then Some 1%Z
  else if String.eqb s "2" then Some 2%Z
  else if String.eqb s "7" then Some 7%Z
  else None.

(** A user who answers [n], and one who answers [Y]. *)
Definition answers_no (model_name : string) (e : unit) : string * unit :=
  ("n", e).

Definition answers_yes (model_name : string) (e : unit) : string * unit :=
  ("Y", e).

(** Collaborators that leave the file system alone. *)
Definition fetch_fails (repo_id : string) (force : bool) (f : node) (e : unit)
  : option string * node * unit := (None, f, e).

Definition fetch_succeeds (repo_id : string) (force : bool) (f : node) (e : unit)
  : option string * node * unit := (Some "snapshot", f, e).

Definition load_fails (model_name : string) (f : node) (e : unit)
  : bool * node * unit := (false, f, e).

Definition load_succeeds (model_name : string) (f : node) (e : unit)
  : bool * node * unit := (true, f, e).

(** Two paths that part ways: a common prefix, then different names. *)
Definition diverge (p q : path) : Prop :=
  exists c a b p' q', p = c ++ a :: p' /\ q = c ++ b :: q' /\ a <> b.

(** The calls to the two collaborators in a trace, in order. *)
Definition calls (ev : list event) : list event :=
  filter (fun e => negb (is_local e)) ev.

(** The calls of a download and its result: one fetch; when it fails the
    result is [False]; when it succeeds, without [verify] the result is
    [True], with [verify] one load follows and its outcome is the result. *)
Definition fetch_phase (model_name : string) (verify force : bool)
    (r : bool) (cs : list event) : Prop :=
  (cs = [EvFetch model_name force None] /\ r = false) \/
  (exists local_path,
     cs = [EvFetch model_name force (Some local_path)] /\
     verify = false /\ r = true) \/
  (exists local_path ok,
     cs = [EvFetch model_name force (Some local_path); EvLoad model_name ok] /\
     verify = true /\ r = ok).

(** The line [list_mlx_models] prints for [model] under number [i]. *)
Definition list_line (f : node) (i : nat) (model : string) : cli_event :=
  let '(st, _, files) := get_model_status model f in
  Say (MsgListLine i st model
         (length (if status_eqb st incomplete then files else []))).

(** The header [clean_incomplete_model] prints when it starts deleting. *)
Definition is_cleaning (e : cli_event) : bool :=
  match e with Core (EvPrint (MsgCleaning _ _)) => true | _ => false end.

(** A trace in which none of the functions that inspect, delete or
    download has printed or done anything. *)
Definition only_says (ev : list cli_event) : Prop :=
  forall e, In e ev -> exists m, e = Say m.

(** * Properties *)

(** ** Strings *)

Section StringFacts.

Local Open Scope string_scope.

Lemma str_app_assoc (a b c : string) : (a ++ b) ++ c = a ++ (b ++ c).
Proof. induction a as [|x a IH]; simpl; [reflexivity | now rewrite IH]. Qed.

Lemma str_app_empty_r (a : string) : a ++ "" = a.
Proof. induction a as [|x a IH]; simpl; [reflexivity | now rewrite IH]. Qed.

Lemma str_length_app (a b : string) :
  String.length (a ++ b) = String.length a + String.length b.
Proof. induction a as [|x a IH]; simpl; [reflexivity | now rewrite IH]. Qed.

Lemma take_drop (n : nat) (s : string) : PyStr.take n s ++ PyStr.drop n s = s.
Proof.
  revert s; induction n as [|n IH]; intros [|c s]; simpl; try reflexivity.
  now rewrite IH.
Qed.

Lemma drop_app (p r : string) : PyStr.drop (String.length p) (p ++ r) = r.
Proof. induction p as [|c p IH]; simpl; [now destruct r | exact IH]. Qed.

Lemma take_app (p r : string) : PyStr.take (String.length p) (p ++ r) = p.
Proof. induction p as [|c p IH]; simpl; [now destruct r | now rewrite IH]. Qed.

Lemma prefix_cons (c d : ascii) (p s : string) :
  String.prefix (String c p) (String d s) = Ascii.eqb c d && String.prefix p s.
Proof.
  simpl. destruct (ascii_dec c d) as [->|N].
  - now rewrite Ascii.eqb_refl.
  - apply Ascii.eqb_neq in N. now rewrite N.
Qed.

Lemma prefix_empty (s : string) : String.prefix "" s = true.
Proof. now destruct s. Qed.

Lemma prefix_spec (p s : string) :
  String.prefix p s = true <-> exists r, s = p ++ r.
Proof.
  revert s; induction p as [|c p IH]; intros s.
  - split; [intros _; now exists s | intros _; now destruct s].
  - destruct s as [|d s].
    + split; [discriminate | intros [r [=]]].
    + rewrite prefix_cons, andb_true_iff, Ascii.eqb_eq, IH. split.
      * intros [-> [r ->]]. now exists r.
      * intros [r [= -> ->]]. split; [reflexivity | now exists r].
Qed.

Lemma startswith_spec (s p : string) :
  PyStr.startswith s p = true <-> exists r, s = p ++ r.
Proof. apply prefix_spec. Qed.

Lemma endswith_spec (s suf : string) :
  PyStr.endswith s suf = true <-> exists pre, s = pre ++ suf.
Proof.
  unfold PyStr.endswith. rewrite andb_true_iff, Nat.leb_le, String.eqb_eq. split.
  - intros [_ H]. exists (PyStr.take (String.length s - String.length suf) s).
    pose proof (take_drop (String.length s - String.length suf) s) as T.
    rewrite H in T. now rewrite T.
  - intros [pre ->]. rewrite str_length_app. split; [lia|].
    replace (String.length pre + String.length suf - String.length suf)
      with (String.length pre) by lia.
    apply drop_app.
Qed.

End StringFacts.

(** ** Glob patterns *)

Section GlobFacts.

Local Open Scope string_scope.

Lemma tokmatch_star (p : list tok) (s : string) :
  tokmatch (Star :: p) s =
  tokmatch p s
  || match s with EmptyString => false | String _ s' => tokmatch (Star :: p) s' end.
Proof. destruct s; reflexivity. Qed.

Lemma fnmatch_literal (lit s : string) :
  star_free lit = true -> fnmatch s lit = String.eqb s lit.
Proof.
  unfold fnmatch. revert s; induction lit as [|c lit IH]; intros s F.
  - now destruct s.
  - simpl in F. apply andb_true_iff in F as [Fc F].
    simpl. destruct (Ascii.eqb c "*"); [discriminate|].
    destruct s as [|d s]; simpl; [reflexivity|].
    rewrite (IH s F), (Ascii.eqb_sym c d). reflexivity.
Qed.

(** ["*" + lit] matches exactly the names that end with [lit]. *)
Lemma fnmatch_star_literal (lit s : string) :
  star_free lit = true ->
  fnmatch s (String "*" lit) = PyStr.endswith s lit.
Proof.
  intros F. unfold fnmatch. simpl parse_pattern.
  apply eq_true_iff_eq. rewrite endswith_spec.
  induction s as [|d s IH]; rewrite tokmatch_star, orb_true_iff.
  - change (tokmatch (parse_pattern lit) "") with (fnmatch "" lit).
    rewrite (fnmatch_literal _ _ F), String.eqb_eq. split.
    + intros [<- | [=]]. now exists "".
    + intros [[|? ?] H]; [left; exact H | discriminate].
  - change (tokmatch (parse_pattern lit) (String d s))
      with (fnmatch (String d s) lit).
    rewrite (fnmatch_literal _ _ F), String.eqb_eq, IH. split.
    + intros [<- | [pre ->]]; [now exists "" | now exists (String d pre)].
    + intros [[|c pre] H]; [left; exact H|].
      right. exists pre. now injection H.
Qed.

Lemma fnmatch_star (s : string) : fnmatch s "*" = true.
Proof.
  unfold fnmatch. simpl parse_pattern.
  induction s as [|c s IH]; rewrite tokmatch_star; [reflexivity|].
  rewrite IH. apply orb_true_r.
Qed.

(** [lit + "*"] matches exactly the names that start with [lit]. *)
Lemma fnmatch_literal_star (lit s : string) :
  star_free lit = true ->
  fnmatch s (lit ++ "*") = PyStr.startswith s lit.
Proof.
  unfold fnmatch, PyStr.startswith.
  revert s; induction lit as [|c lit IH]; intros s F.
  - rewrite (proj2 (prefix_spec "" s)) by now exists s.
    apply fnmatch_star.
  - simpl in F. apply andb_true_iff in F as [Fc F].
    simpl append. simpl parse_pattern. destruct (Ascii.eqb c "*"); [discriminate|].
    destruct s as [|d s]; [reflexivity|].
    rewrite prefix_cons. simpl tokmatch. now rewrite (IH s F).
Qed.

End GlobFacts.

(** ** The file system and [get_model_status] *)

Section InspectFacts.

Lemma glob_marker (p : path) (f : node) :
  glob p "*.incomplete" f =
  map (fun n => p ++ [n]) (filter has_marker (listdir p f)).
Proof.
  unfold glob. f_equal. apply filter_ext. intros n.
  apply (fnmatch_star_literal ".incomplete"). reflexivity.
Qed.

Lemma glob_all (p : path) (f : node) :
  glob p "*" f = map (fun n => p ++ [n]) (listdir p f).
Proof.
  unfold glob. f_equal.
  induction (listdir p f) as [|n l IH]; simpl; [reflexivity|].
  now rewrite fnmatch_star, IH.
Qed.

Lemma filter_nil_existsb {A : Type} (g : A -> bool) (l : list A) :
  filter g l = [] <-> existsb g l = false.
Proof.
  induction l as [|a l IH]; simpl; [tauto|].
  destruct (g a); simpl; [split; discriminate | exact IH].
Qed.

Lemma get_model_status_unfold (model_name : string) (f : node) :
  get_model_status model_name f =
  if negb (path_exists (root_path model_name) f) then (not_downloaded, None, [])
  else if negb (path_exists (blobs_path model_name) f)
  then (no_blobs, Some (root_path model_name), [])
  else if existsb has_marker (listdir (blobs_path model_name) f)
  then (incomplete, Some (root_path model_name), marked_blobs model_name f)
  else if path_exists (snapshots_path model_name) f
          && negb (Nat.eqb (length (listdir (snapshots_path model_name) f)) 0)
  then (complete, Some (root_path model_name), all_blobs model_name f)
  else (unknown, Some (root_path model_name), all_blobs model_name f).
Proof.
  unfold get_model_status.
  fold (root_path model_name). fold (blobs_path model_name).
  fold (snapshots_path model_name).
  destruct (negb (path_exists (root_path model_name) f)); [reflexivity|].
  destruct (negb (path_exists (blobs_path model_name) f)); [reflexivity|].
  rewrite !glob_all, glob_marker.
  fold (marked_blobs model_name f). fold (all_blobs model_name f).
  unfold marked_blobs.
  destruct (existsb has_marker (listdir (blobs_path model_name) f)) eqn:X.
  - destruct (filter has_marker (listdir (blobs_path model_name) f)) eqn:Fl.
    + apply filter_nil_existsb in Fl. congruence.
    + reflexivity.
  - apply filter_nil_existsb in X. rewrite X. simpl.
    destruct (listdir (snapshots_path model_name) f); reflexivity.
Qed.

Lemma lookup_app (p q : path) (x : node) :
  lookup (p ++ q) x =
  match lookup p x with Some y => lookup q y | None => None end.
Proof.
  revert x; induction p as [|n p IH]; intros x; simpl; [reflexivity|].
  destruct x as [|es]; [reflexivity|].
  destruct (lookup_entry n es); [apply IH | reflexivity].
Qed.

Lemma path_exists_app (p q : path) (f : node) :
  path_exists (p ++ q) f = true -> path_exists p f = true.
Proof.
  unfold path_exists. rewrite lookup_app.
  destruct (lookup p f); [reflexivity | discriminate].
Qed.

Lemma listdir_exists (p : path) (f : node) (n : string) :
  In n (listdir p f) -> path_exists p f = true.
Proof.
  unfold listdir, path_exists.
  destruct (lookup p f) as [[|es]|]; simpl; tauto.
Qed.

Lemma has_marker_spec (n : string) :
  has_marker n = true <-> exists pre, n = (pre ++ ".incomplete")%string.
Proof. apply endswith_spec. Qed.

Lemma in_marked_blobs (model_name : string) (f : node) (n : string) :
  In (blobs_path model_name ++ [n]) (marked_blobs model_name f) <->
  In n (listdir (blobs_path model_name) f) /\ has_marker n = true.
Proof.
  unfold marked_blobs. rewrite in_map_iff. split.
  - intros [m [Hm Hin]]. apply app_inv_head in Hm. injection Hm as ->.
    now apply filter_In in Hin.
  - intros H. exists n. split; [reflexivity | now apply filter_In].
Qed.

End InspectFacts.

(** C1. [get_model_status] classifies in the strict first-match order of
    the specification: a missing model directory gives [not_downloaded];
    else a missing [blobs] gives [no_blobs]; else any entry of [blobs] with
    the marker suffix gives [incomplete], whatever [snapshots] holds; else
    an existing, non-empty [snapshots] gives [complete]; else [unknown]. *)
Theorem get_model_status_classifies (model_name : string) (f : node) :
  fst (fst (get_model_status model_name f)) = spec_inspect_status model_name f.
Proof.
  rewrite get_model_status_unfold. unfold spec_inspect_status.
  repeat match goal with |- context [if ?b then _ else _] => destruct b end;
    reflexivity.
Qed.

(** C9. An entry of [blobs] is counted as an incomplete file exactly when
    its name ends with [.incomplete], and the status is [incomplete]
    exactly when some entry of [blobs] has such a name. *)
Theorem incomplete_iff_marker_suffix (model_name : string) (f : node) :
  (forall n, In n (listdir (blobs_path model_name) f) ->
     (fst (fst (get_model_status model_name f)) = incomplete /\
      In (blobs_path model_name ++ [n]) (snd (get_model_status model_name f)))
     <-> exists pre, n = (pre ++ ".incomplete")%string) /\
  (fst (fst (get_model_status model_name f)) = incomplete <->
   exists n, In n (listdir (blobs_path model_name) f) /\
             exists pre, n = (pre ++ ".incomplete")%string).
Proof.
  assert (K : forall n, In n (listdir (blobs_path model_name) f) ->
                        has_marker n = true ->
                        get_model_status model_name f =
                        (incomplete, Some (root_path model_name),
                         marked_blobs model_name f)).
  { intros n Hin Hm. rewrite get_model_status_unfold.
    pose proof (listdir_exists _ _ _ Hin) as Eb.
    pose proof (path_exists_app _ _ _ Eb) as Er.
    rewrite Er, Eb. simpl.
    replace (existsb has_marker (listdir (blobs_path model_name) f)) with true;
      [reflexivity|].
    symmetry. apply existsb_exists. now exists n. }
  split.
  - intros n Hin. rewrite <- has_marker_spec. split.
    + intros [Hs Hf]. rewrite get_model_status_unfold in Hs, Hf.
      repeat match type of Hs with context [if ?b then _ else _] =>
               destruct b end; try discriminate.
      simpl in Hf. now apply in_marked_blobs in Hf.
    + intros Hm. rewrite (K n Hin Hm). simpl. split; [reflexivity|].
      now apply in_marked_blobs.
  - split.
    + intros Hs. rewrite get_model_status_unfold in Hs.
      repeat match type of Hs with context [if ?b then _ else _] =>
               destruct b eqn:? end; try discriminate.
      match goal with H : existsb _ _ = true |- _ =>
        apply existsb_exists in H as [n [Hin Hm]] end.
      exists n. split; [exact Hin | now apply has_marker_spec].
    + intros [n [Hin Hm]]. apply has_marker_spec in Hm.
      now rewrite (K n Hin Hm).
Qed.

(** C10. The file list returned by [get_model_status] is empty for
    [not_downloaded] and [no_blobs]; for [incomplete] it is exactly the
    marker-suffixed entries of [blobs] and is not empty; for [complete] and
    [unknown] it is every entry of [blobs]. *)
Theorem get_model_status_files (model_name : string) (f : node) :
  match fst (fst (get_model_status model_name f)) with
  | not_downloaded | no_blobs => snd (get_model_status model_name f) = []
  | incomplete =>
      snd (get_model_status model_name f) = marked_blobs model_name f /\
      snd (get_model_status model_name f) <> []
  | complete | unknown =>
      snd (get_model_status model_name f) = all_blobs model_name f
  end.
Proof.
  rewrite get_model_status_unfold.
  repeat match goal with |- context [if ?b then _ else _] =>
           destruct b eqn:? end; simpl; try reflexivity.
  split; [reflexivity|]. unfold marked_blobs. intros Hnil.
  apply map_eq_nil in Hnil. apply filter_nil_existsb in Hnil. congruence.
Qed.

Lemma incomplete_iff_marker_suffix_witness :
  In "abc123.incomplete" (listdir (blobs_path "acme/Foo-7B") cache_partial) /\
  (fst (fst (get_model_status "acme/Foo-7B" cache_partial)) = incomplete /\
   In (blobs_path "acme/Foo-7B" ++ ["abc123.incomplete"])
      (snd (get_model_status "acme/Foo-7B" cache_partial))).
Proof.
  assert (H : In "abc123.incomplete"
                 (listdir (blobs_path "acme/Foo-7B") cache_partial))
    by (simpl; auto).
  split; [exact H|].
  apply (proj1 (incomplete_iff_marker_suffix "acme/Foo-7B" cache_partial)
           "abc123.incomplete" H).
  exists "abc123". reflexivity.
Defined.

(** ** The directory-name codec *)

Section CodecFacts.

Local Open Scope string_scope.

Lemma split_loop_unfold (c : ascii) (sep' s : string) :
  PyStr.split_loop c sep' s =
  match PyStr.find (String c sep') s with
  | None => [s]
  | Some i =>
      PyStr.take i s
      :: PyStr.split_loop c sep' (PyStr.drop (i + S (String.length sep')) s)
  end.
Proof.
  funelim (PyStr.split_loop c sep' s);
    match goal with E : PyStr.find _ s = _ |- _ => rewrite E end; reflexivity.
Qed.

Lemma contains_false (sub s : string) :
  PyStr.contains sub s = false <-> PyStr.find sub s = None.
Proof.
  unfold PyStr.contains. destruct (PyStr.find sub s); split; congruence.
Qed.

Lemma endswith_tail (c : ascii) (s suf : string) :
  PyStr.endswith (String c s) suf = false -> s <> "" ->
  PyStr.endswith s suf = false.
Proof.
  intros H _. destruct (PyStr.endswith s suf) eqn:T; [|reflexivity].
  apply endswith_spec in T as [pre ->].
  assert (X : PyStr.endswith (String c (pre ++ suf)) suf = true)
    by (apply endswith_spec; now exists (String c pre)).
  congruence.
Qed.

(** In [a ++ "--" ++ rest] the leftmost [--] is the one written out, as
    long as [a] has no [--] and does not end with [-]. *)
Lemma find_dashes_app (a rest : string) :
  PyStr.find "--" a = None -> PyStr.endswith a "-" = false ->
  PyStr.find "--" (a ++ "--" ++ rest) = Some (String.length a).
Proof.
  induction a as [|c a IH]; intros Hf He.
  { change ("" ++ "--" ++ rest) with (String "-" (String "-" rest)).
    now rewrite PyStr.find_unfold, !prefix_cons, prefix_empty. }
  rewrite PyStr.find_unfold in Hf.
  destruct (String.prefix "--" (String c a)) eqn:P; [discriminate|].
  destruct (PyStr.find "--" a) eqn:Fa; [discriminate|].
  change (String c a ++ "--" ++ rest) with (String c (a ++ "--" ++ rest)).
  rewrite PyStr.find_unfold.
  assert (Q : String.prefix "--" (String c (a ++ "--" ++ rest)) = false).
  { rewrite prefix_cons in P |- *.
    destruct (Ascii.eqb "-" c) eqn:Ec; [|reflexivity].
    apply Ascii.eqb_eq in Ec. subst c. cbn [andb] in P |- *.
    destruct a as [|d a]; [vm_compute in He; discriminate|].
    change (String d a ++ "--" ++ rest) with (String d (a ++ "--" ++ rest)).
    rewrite prefix_cons, prefix_empty, andb_true_r in P |- *. exact P. }
  rewrite Q, IH; [reflexivity | reflexivity |].
  destruct a as [|d a]; [reflexivity|].
  apply (endswith_tail c); [exact He | discriminate].
Qed.

Lemma drop_add (n m : nat) (s : string) :
  PyStr.drop (n + m) s = PyStr.drop m (PyStr.drop n s).
Proof.
  revert s; induction n as [|n IH]; intros s; [reflexivity|].
  destruct s as [|c s]; simpl; [now destruct m | apply IH].
Qed.

(** [split] undoes [join] on well-formed parts. *)
Lemma split_join (parts : list string) :
  parts <> [] -> parts_ok parts ->
  PyStr.split "--" (PyStr.join "--" parts) = Some parts.
Proof.
  unfold PyStr.split. intros Hne Hok. f_equal.
  induction parts as [|p rest IH]; [congruence|].
  destruct Hok as [Hc Hrest]. apply contains_false in Hc.
  rewrite split_loop_unfold.
  destruct rest as [|q rest].
  - simpl. now rewrite Hc.
  - destruct Hrest as [He Hok].
    change (PyStr.join "--" (p :: q :: rest))
      with (p ++ "--" ++ PyStr.join "--" (q :: rest)).
    rewrite (find_dashes_app p _ Hc He), take_app, drop_add, drop_app.
    change (PyStr.drop (S (String.length "-")) ("--" ++ ?x)) with x.
    simpl PyStr.drop. f_equal. apply IH; [discriminate | exact Hok].
Qed.

Lemma replace_app (c : ascii) (new a b : string) :
  PyStr.replace c new (a ++ b) = PyStr.replace c new a ++ PyStr.replace c new b.
Proof.
  induction a as [|d a IH]; simpl; [reflexivity|].
  destruct (Ascii.eqb d c); rewrite IH; [now rewrite str_app_assoc | reflexivity].
Qed.

Lemma replace_absent (c : ascii) (new s : string) :
  PyStr.contains (String c "") s = false -> PyStr.replace c new s = s.
Proof.
  rewrite contains_false. induction s as [|d s IH]; [reflexivity|].
  rewrite PyStr.find_unfold, prefix_cons. simpl.
  rewrite Ascii.eqb_sym.
  destruct (Ascii.eqb d c).
  - destruct s; discriminate.
  - simpl. destruct (PyStr.find (String c "") s); [discriminate|].
    intros _. now rewrite IH.
Qed.

(** The directory name of [org/name] when neither part has a [/]. *)
Lemma model_dir_name_pair (org name : string) :
  PyStr.contains "/" org = false -> PyStr.contains "/" name = false ->
  model_dir_name (org ++ "/" ++ name) = "models--" ++ PyStr.join "--" [org; name].
Proof.
  intros Ho Hn. unfold model_dir_name.
  rewrite !replace_app, (replace_absent _ _ _ Ho), (replace_absent _ _ _ Hn).
  reflexivity.
Qed.

Lemma decode_prefixed (rest : string) :
  decode_dir_name ("models--" ++ rest) =
  match PyStr.split "--" rest with
  | Some parts =>
      if Nat.leb 2 (length parts)
      then Some (hd "" parts ++ "/" ++ PyStr.join "-" (tl parts))
      else None
  | None => None
  end.
Proof.
  unfold decode_dir_name, PyStr.startswith.
  rewrite (proj2 (prefix_spec "models--" _)) by (now exists rest).
  change 8 with (String.length "models--"). now rewrite drop_app.
Qed.

End CodecFacts.

(** C3, as the specification states it, fails: a name without [--] is not
    enough.  The organization [a-] with the name [b] encodes to
    [models--a---b], which decodes to [a/-b]; the organization [a--b] with
    the name [c] decodes to [a/b-c]; and the organization [a] with the name
    [b/c] decodes to [a/b-c]. *)
Lemma codec_roundtrip_counterexample :
  (PyStr.contains "--" "b" = false /\
   model_dir_name ("a-" ++ "/" ++ "b")%string = "models--a---b" /\
   decode_dir_name (model_dir_name ("a-" ++ "/" ++ "b")%string) = Some "a/-b" /\
   decode_dir_name (model_dir_name ("a-" ++ "/" ++ "b")%string)
   <> Some ("a-" ++ "/" ++ "b")%string) /\
  (PyStr.contains "--" "c" = false /\
   decode_dir_name (model_dir_name ("a--b" ++ "/" ++ "c")%string) = Some "a/b-c" /\
   decode_dir_name (model_dir_name ("a--b" ++ "/" ++ "c")%string)
   <> Some ("a--b" ++ "/" ++ "c")%string) /\
  (PyStr.contains "--" "b/c" = false /\
   decode_dir_name (model_dir_name ("a" ++ "/" ++ "b/c")%string) = Some "a/b-c" /\
   decode_dir_name (model_dir_name ("a" ++ "/" ++ "b/c")%string)
   <> Some ("a" ++ "/" ++ "b/c")%string).
Proof. repeat split; try reflexivity; vm_compute; discriminate. Qed.

(** C3, amended. When neither the organization nor the name contains [/],
    the organization contains no [--] and does not end with [-], and the
    name contains no [--], decoding the encoded directory name gives the
    identifier back. *)
Theorem codec_roundtrip (org name : string) :
  PyStr.contains "/" org = false ->
  PyStr.contains "/" name = false ->
  PyStr.contains "--" org = false ->
  PyStr.endswith org "-" = false ->
  PyStr.contains "--" name = false ->
  decode_dir_name (model_dir_name (org ++ "/" ++ name)%string)
  = Some (org ++ "/" ++ name)%string.
Proof.
  intros So Sn Do Eo Dn.
  rewrite (model_dir_name_pair org name So Sn), decode_prefixed.
  rewrite split_join; [reflexivity | discriminate |].
  simpl. auto.
Qed.

Lemma codec_roundtrip_witness :
  decode_dir_name
    (model_dir_name ("mlx-community" ++ "/" ++ "Llama-3.2-3B-Instruct-4bit")%string)
  = Some ("mlx-community" ++ "/" ++ "Llama-3.2-3B-Instruct-4bit")%string.
Proof.
  apply (codec_roundtrip "mlx-community" "Llama-3.2-3B-Instruct-4bit");
    reflexivity.
Defined.

(** C4. Decoding a directory name fails unless the name starts with
    [models--] and the remainder splits on [--] into at least two parts; on
    success the result is [parts[0]], a [/], and [parts[1:]] joined with a
    single [-], so that every separator after the first collapses to one
    dash: [models--org--a--b] decodes to [org/a-b]. *)
Theorem decode_dir_name_spec :
  (forall dir_name id,
     decode_dir_name dir_name = Some id <->
     exists rest parts,
       dir_name = ("models--" ++ rest)%string /\
       PyStr.split "--" rest = Some parts /\
       2 <= length parts /\
       id = (hd "" parts ++ "/" ++ PyStr.join "-" (tl parts))%string) /\
  (forall dir_name,
     PyStr.startswith dir_name "models--" = false ->
     decode_dir_name dir_name = None) /\
  (forall rest parts,
     PyStr.split "--" rest = Some parts -> length parts < 2 ->
     decode_dir_name ("models--" ++ rest)%string = None) /\
  (forall org parts,
     parts <> [] -> parts_ok (org :: parts) ->
     decode_dir_name ("models--" ++ PyStr.join "--" (org :: parts))%string
     = Some (org ++ "/" ++ PyStr.join "-" parts)%string) /\
  decode_dir_name "models--org--a--b" = Some "org/a-b".
Proof.
  repeat split.
  - unfold decode_dir_name. intros H.
    destruct (PyStr.startswith dir_name "models--") eqn:P; [|discriminate].
    apply startswith_spec in P as [rest ->].
    change 8 with (String.length "models--") in H. rewrite drop_app in H.
    destruct (PyStr.split "--" rest) as [parts|] eqn:Sp; [|discriminate].
    destruct (Nat.leb 2 (length parts)) eqn:L; [|discriminate].
    apply Nat.leb_le in L. injection H as <-.
    exists rest, parts. auto.
  - intros (rest & parts & -> & Sp & L & ->).
    rewrite decode_prefixed, Sp.
    apply Nat.leb_le in L. now rewrite L.
  - intros dir_name P. unfold decode_dir_name. now rewrite P.
  - intros rest parts Sp L. rewrite decode_prefixed, Sp.
    apply Nat.leb_gt in L. now rewrite L.
  - intros org parts Hne Hok. rewrite decode_prefixed.
    rewrite split_join; [|discriminate|exact Hok].
    destruct parts; [congruence | reflexivity].
Qed.

Lemma decode_dir_name_spec_witness :
  decode_dir_name "models--org--a--b" = Some "org/a-b" /\
  decode_dir_name "models--org" = None /\
  decode_dir_name "randomdir" = None.
Proof.
  destruct decode_dir_name_spec as (Hiff & Hpre & Hfew & _ & _).
  split; [|split].
  - apply (proj2 (Hiff "models--org--a--b" "org/a-b")).
    exists "org--a--b", ["org"; "a"; "b"].
    repeat split; try reflexivity. simpl. lia.
  - apply (Hfew "org" ["org"]); [reflexivity | simpl; lia].
  - apply (Hpre "randomdir"). reflexivity.
Defined.

(** ** Sorting and [discover_local_models] *)

Section DiscoverFacts.

Lemma ascii_compare_refl (a : ascii) : Ascii.compare a a = Eq.
Proof. unfold Ascii.compare. apply N.compare_refl. Qed.

Lemma ascii_compare_lt_trans (a b c : ascii) :
  Ascii.compare a b = Lt -> Ascii.compare b c = Lt -> Ascii.compare a c = Lt.
Proof.
  unfold Ascii.compare. rewrite !N.compare_lt_iff. apply N.lt_trans.
Qed.

Lemma str_le_trans (s1 s2 s3 : string) :
  str_le s1 s2 -> str_le s2 s3 -> str_le s1 s3.
Proof.
  unfold str_le, String.leb.
  revert s2 s3; induction s1 as [|a s1 IH]; intros [|b s2] [|c s3]; simpl;
    try reflexivity; try discriminate.
  destruct (Ascii.compare a b) eqn:C1; destruct (Ascii.compare b c) eqn:C2;
    try discriminate; intros H1 H2.
  - apply Ascii.compare_eq_iff in C1, C2. subst.
    rewrite ascii_compare_refl. now apply (IH s2 s3).
  - apply Ascii.compare_eq_iff in C1. subst. now rewrite C2.
  - apply Ascii.compare_eq_iff in C2. subst. now rewrite C1.
  - now rewrite (ascii_compare_lt_trans a b c C1 C2).
Qed.

Lemma sorted_StronglySorted (l : list string) : StronglySorted str_le (sorted l).
Proof.
  apply StringSort.StronglySorted_sort.
  intros a b c. apply str_le_trans.
Qed.

Lemma sorted_Permutation (l : list string) : Permutation (sorted l) l.
Proof. symmetry. apply StringSort.Permuted_sort. Qed.

(** A list has one sorted arrangement. *)
Lemma sorted_unique (l1 l2 : list string) :
  StronglySorted str_le l1 -> StronglySorted str_le l2 ->
  Permutation l1 l2 -> l1 = l2.
Proof.
  intros S1; revert l2; induction S1 as [|a l1 S1 IH Ha]; intros l2 S2 P.
  - apply Permutation_nil in P. now subst.
  - destruct S2 as [|b l2 S2 Hb].
    + apply Permutation_sym, Permutation_nil in P. discriminate.
    + assert (a = b) as <-.
      { assert (Ia : In a (b :: l2))
          by (eapply Permutation_in; [exact P | now left]).
        assert (Ib : In b (a :: l1))
          by (eapply Permutation_in; [apply Permutation_sym; exact P | now left]).
        destruct Ia as [->|Ia]; [reflexivity|].
        destruct Ib as [->|Ib]; [reflexivity|].
        rewrite Forall_forall in Ha, Hb.
        apply String.leb_antisym; [apply Ha, Ib | apply Hb, Ia]. }
      f_equal. apply IH; [exact S2|].
      now apply Permutation_cons_inv in P.
Qed.

Lemma discovered_models (f : node) :
  flat_map
    (fun model_dir =>
       if is_dir model_dir f then
         match decode_dir_name (path_name model_dir) with
         | Some model_name => [model_name]
         | None => []
         end
       else [])
    (glob get_cache_path "models--*" f)
  = decoded_models f.
Proof.
  unfold decoded_models, model_dirs, glob.
  induction (listdir get_cache_path f) as [|n l IH]; [reflexivity|].
  cbn [filter].
  rewrite (fnmatch_literal_star "models--" n eq_refl
           : fnmatch n "models--*" = PyStr.startswith n "models--").
  destruct (PyStr.startswith n "models--"); cbn [andb]; [|exact IH].
  cbn [map flat_map]. rewrite IH.
  unfold path_name. rewrite last_last.
  destruct (is_dir (get_cache_path ++ [n]) f); reflexivity.
Qed.

End DiscoverFacts.

(** C5, as the specification states it, fails in its last part: the
    directory [models--orphan] matches the pattern, is a directory and does
    not decode, and the scan returns the other two models without printing
    or returning anything about it. *)
Lemma discover_local_models_counterexample :
  In "models--orphan" (listdir get_cache_path cache_mixed) /\
  fnmatch "models--orphan" "models--*" = true /\
  is_dir (get_cache_path ++ ["models--orphan"]) cache_mixed = true /\
  decode_dir_name "models--orphan" = None /\
  discover_local_models (World cache_mixed nothing_denied tt)
  = (["acme/Foo-7B"; "zeta/Bar"], World cache_mixed nothing_denied tt, []).
Proof. repeat split; try reflexivity. simpl. auto. Qed.

Lemma discover_local_models_value {E : Type} (w : world E) :
  discover_local_models w = (sorted (decoded_models (fs w)), w, []).
Proof.
  unfold discover_local_models, bind, gets, ret.
  destruct (path_exists get_cache_path (fs w)) eqn:X; cbn [negb].
  - now rewrite discovered_models.
  - unfold decoded_models, model_dirs, listdir.
    unfold path_exists in X.
    destruct (lookup get_cache_path (fs w)); [discriminate | reflexivity].
Qed.

(** C5, amended. For every cache root, [discover_local_models] returns the
    model names decoded from the [models--*] directories, sorted
    lexicographically; a directory whose name does not decode does not
    abort the scan and is skipped silently: the call prints nothing and
    leaves the world as it was. *)
Theorem discover_local_models_spec {E : Type} (w : world E) :
  exists models,
    discover_local_models w = (models, w, []) /\
    Permutation models (decoded_models (fs w)) /\
    StronglySorted str_le models.
Proof.
  exists (sorted (decoded_models (fs w))). split; [|split].
  - apply discover_local_models_value.
  - apply sorted_Permutation.
  - apply sorted_StronglySorted.
Qed.

(** The result of [discover_local_models] is the only sorted arrangement
    of the decoded names. *)
Corollary discover_local_models_unique {E : Type} (w : world E) (l : list string) :
  StronglySorted str_le l -> Permutation l (decoded_models (fs w)) ->
  fst (fst (discover_local_models w)) = l.
Proof.
  intros Sl Pl. rewrite discover_local_models_value. simpl.
  apply sorted_unique; [apply sorted_StronglySorted | exact Sl |].
  now rewrite sorted_Permutation, Pl.
Qed.

(** ** Deleting: [clean_incomplete_model] and [remove_model] *)

Section NodeInduction.

Variable P : node -> Prop.
Hypothesis P_file : P File.
Hypothesis P_dir : forall es, Forall (fun e => P (snd e)) es -> P (Dir es).

(** Induction on trees: a directory inherits from all its entries. *)
Fixpoint node_tree_ind (x : node) : P x :=
  match x with
  | File => P_file
  | Dir es =>
      P_dir es
        ((fix entries (es : list (string * node))
            : Forall (fun e => P (snd e)) es :=
            match es with
            | [] => Forall_nil _
            | (n, y) :: es' =>
                Forall_cons (n, y) (node_tree_ind y) (entries es')
            end) es)
  end.

End NodeInduction.

(** When the system refuses nothing, [shutil.rmtree] empties any tree. *)
Lemma rm_node_nothing_denied (denied : path -> bool) (x : node) :
  (forall p, denied p = false) -> forall p, rm_node denied p x = None.
Proof.
  intros Hd. induction x as [|es IH] using node_tree_ind; intros p.
  - simpl. now rewrite Hd.
  - simpl.
    match goal with |- match ?g es with _ => _ end = _ =>
      assert (G : g es = []) end.
    { induction IH as [|[n y] es Hy _ IHes]; [reflexivity|].
      simpl in Hy |- *. now rewrite Hy. }
    rewrite G. now rewrite Hd.
Qed.

Section MutatorFacts.

Context {E : Type}.

Lemma lookup_entry_filter (n m : string) (es : list (string * node)) :
  lookup_entry n (filter (fun e => negb (String.eqb (fst e) m)) es) =
  if String.eqb m n then None else lookup_entry n es.
Proof.
  induction es as [|[k x] es IH]; simpl; [now destruct (String.eqb m n)|].
  destruct (String.eqb k m) eqn:Km; simpl.
  - apply String.eqb_eq in Km. subst k. rewrite IH.
    now destruct (String.eqb m n).
  - rewrite IH. destruct (String.eqb k n) eqn:Kn; [|reflexivity].
    apply String.eqb_eq in Kn. rewrite <- Kn, (String.eqb_sym m k), Km.
    reflexivity.
Qed.

Lemma lookup_entry_map (n m : string) (g : node -> node)
    (es : list (string * node)) :
  lookup_entry n (map (fun e => if String.eqb (fst e) m
                                then (fst e, g (snd e)) else e) es) =
  if String.eqb m n then option_map g (lookup_entry n es)
  else lookup_entry n es.
Proof.
  induction es as [|[k x] es IH]; simpl; [now destruct (String.eqb m n)|].
  destruct (String.eqb k m) eqn:Km; simpl; rewrite IH.
  - apply String.eqb_eq in Km. subst k.
    now destruct (String.eqb m n).
  - destruct (String.eqb k n) eqn:Kn; [|reflexivity].
    apply String.eqb_eq in Kn. rewrite <- Kn, (String.eqb_sym m k), Km.
    reflexivity.
Qed.

Lemma remove_at_last (n : string) (es : list (string * node)) :
  remove_at [n] (Dir es)
  = Dir (filter (fun e => negb (String.eqb (fst e) n)) es).
Proof. reflexivity. Qed.

Lemma remove_at_cons (n m : string) (q : path) (es : list (string * node)) :
  remove_at (n :: m :: q) (Dir es)
  = Dir (map (fun e => if String.eqb (fst e) n
                       then (fst e, remove_at (m :: q) (snd e)) else e) es).
Proof. reflexivity. Qed.

Lemma lookup_cons (n : string) (p : path) (es : list (string * node)) :
  lookup (n :: p) (Dir es)
  = match lookup_entry n es with Some y => lookup p y | None => None end.
Proof. reflexivity. Qed.

(** Removing an entry makes its path dangle. *)
Lemma lookup_remove_at_same (p : path) (x : node) :
  p <> [] -> lookup p (remove_at p x) = None.
Proof.
  revert x; induction p as [|n p IH]; intros x Hne; [congruence|].
  destruct x as [|es]; [reflexivity|].
  destruct p as [|m p].
  - now rewrite remove_at_last, lookup_cons, lookup_entry_filter, String.eqb_refl.
  - rewrite remove_at_cons, lookup_cons, lookup_entry_map, String.eqb_refl.
    destruct (lookup_entry n es) as [y|]; [|reflexivity].
    cbn [option_map]. apply IH. discriminate.
Qed.

(** Removing an entry creates nothing. *)
Lemma lookup_remove_at_none (p q : path) (x : node) :
  lookup p x = None -> lookup p (remove_at q x) = None.
Proof.
  revert q x; induction p as [|n p IH]; intros q x H; [discriminate|].
  destruct q as [|m q]; [exact H|].
  destruct x as [|es]; [reflexivity|].
  rewrite lookup_cons in H.
  destruct q as [|k q].
  - rewrite remove_at_last, lookup_cons, lookup_entry_filter.
    destruct (String.eqb m n); [reflexivity | exact H].
  - rewrite remove_at_cons, lookup_cons, lookup_entry_map.
    destruct (String.eqb m n); [|exact H].
    destruct (lookup_entry n es) as [y|]; [|reflexivity].
    cbn [option_map]. now apply IH.
Qed.

Lemma path_unlink_cases (p : path) (w : world E) :
  path_unlink p w = (true, set_fs (remove_at p (fs w)) w, [EvUnlink p true]) \/
  path_unlink p w = (false, w, [EvUnlink p false]).
Proof.
  unfold path_unlink.
  destruct (lookup p (fs w)) as [[|es]|]; auto.
  destruct (denied w p); auto.
Qed.

Lemma unlink_each_cons (p : path) (rest : list path) (w : world E) :
  unlink_each (p :: rest) w =
  let '(ok, w1, ev1) := path_unlink p w in
  let '(u, w2, ev2) := unlink_each rest w1 in
  (u, w2,
   ev1 ++ EvPrint (if ok then MsgRemoved (path_name p)
                   else MsgFailedToRemoveFile (path_name p)) :: ev2).
Proof.
  cbn [unlink_each]. unfold bind, print.
  destruct (path_unlink p w) as [[ok w1] ev1].
  destruct (unlink_each rest w1) as [[u w2] ev2]. reflexivity.
Qed.

(** The loop tries every file, whatever happened to the ones before. *)
Lemma unlink_each_attempts (files : list path) (w : world E) :
  unlink_attempts (snd (unlink_each files w)) = files.
Proof.
  revert w; induction files as [|p rest IH]; intros w; [reflexivity|].
  rewrite unlink_each_cons.
  destruct (path_unlink_cases p w) as [-> | ->];
    match goal with |- context [unlink_each rest ?v] =>
      specialize (IH v); destruct (unlink_each rest v) as [[u w2] ev2] end;
    simpl in *; now rewrite IH.
Qed.

Lemma unlink_each_local (files : list path) (w : world E) :
  forallb is_local (snd (unlink_each files w)) = true.
Proof.
  revert w; induction files as [|p rest IH]; intros w; [reflexivity|].
  rewrite unlink_each_cons.
  destruct (path_unlink_cases p w) as [-> | ->];
    match goal with |- context [unlink_each rest ?v] =>
      specialize (IH v); destruct (unlink_each rest v) as [[u w2] ev2] end;
    simpl in *; exact IH.
Qed.

(** The loop touches nothing but the file system. *)
Lemma unlink_each_frame (files : list path) (w : world E) :
  denied (snd (fst (unlink_each files w))) = denied w /\
  ext (snd (fst (unlink_each files w))) = ext w.
Proof.
  revert w; induction files as [|p rest IH]; intros w; [now split|].
  rewrite unlink_each_cons.
  destruct (path_unlink_cases p w) as [-> | ->];
    match goal with |- context [unlink_each rest ?v] =>
      specialize (IH v); destruct (unlink_each rest v) as [[u w2] ev2] end;
    simpl in *; exact IH.
Qed.

(** What is absent stays absent. *)
Lemma unlink_each_gone_stays (files : list path) (q : path) (w : world E) :
  path_exists q (fs w) = false ->
  path_exists q (fs (snd (fst (unlink_each files w)))) = false.
Proof.
  revert w; induction files as [|p rest IH]; intros w H; [exact H|].
  rewrite unlink_each_cons.
  destruct (path_unlink_cases p w) as [-> | ->];
    match goal with |- context [unlink_each rest ?v] =>
      specialize (IH v); destruct (unlink_each rest v) as [[u w2] ev2] end;
    simpl in *; apply IH; [|exact H].
  unfold path_exists in *.
  destruct (lookup q (fs w)) eqn:L; [discriminate|].
  now rewrite (lookup_remove_at_none q p _ L).
Qed.

(** A file whose deletion succeeded is gone at the end. *)
Lemma unlink_each_removed (files : list path) (w : world E) (q : path) :
  Forall (fun p => p <> []) files ->
  In (EvUnlink q true) (snd (unlink_each files w)) ->
  path_exists q (fs (snd (fst (unlink_each files w)))) = false.
Proof.
  intros F; revert w; induction F as [|p rest Hp F IH]; intros w Hin;
    [destruct Hin|].
  rewrite unlink_each_cons in *.
  destruct (path_unlink_cases p w) as [U | U]; rewrite U in *.
  - pose proof (unlink_each_gone_stays rest q (set_fs (remove_at p (fs w)) w)) as G.
    specialize (IH (set_fs (remove_at p (fs w)) w)).
    destruct (unlink_each rest _) as [[u w2] ev2]. simpl in *.
    destruct Hin as [[= ->] | [[=] | Hin]]; [|now apply IH].
    apply G. unfold path_exists. now rewrite lookup_remove_at_same.
  - specialize (IH w).
    destruct (unlink_each rest w) as [[u w2] ev2]. simpl in *.
    destruct Hin as [[=] | [[=] | Hin]]. now apply IH.
Qed.

Lemma status_files_nonempty (model_name : string) (f : node) :
  Forall (fun p => p <> []) (snd (get_model_status model_name f)).
Proof.
  rewrite get_model_status_unfold.
  repeat match goal with |- context [if ?b then _ else _] => destruct b end;
    simpl; try constructor;
    unfold marked_blobs, all_blobs; apply Forall_forall;
    intros p Hp; apply in_map_iff in Hp as [n [<- _]];
    intros Hnil; now apply app_eq_nil in Hnil as [_ ?].
Qed.

Lemma clean_incomplete_model_unfold (model_name : string) (w : world E) :
  clean_incomplete_model model_name w =
  let '(st, _, files) := get_model_status model_name (fs w) in
  match st with
  | incomplete =>
      let '(_, w', ev) := unlink_each files w in
      (true, w', EvPrint (MsgCleaning (length files) model_name) :: ev)
  | not_downloaded => (false, w, [EvPrint (MsgNotDownloadedYet model_name)])
  | _ => (false, w, [EvPrint (MsgAppearsComplete model_name)])
  end.
Proof.
  unfold clean_incomplete_model, bind, gets.
  destruct (get_model_status model_name (fs w)) as [[st mp] files].
  destruct st; try reflexivity.
  cbn [status_eqb]. unfold print, ret.
  destruct (unlink_each files w) as [[u w'] ev].
  now rewrite app_nil_r.
Qed.

Lemma status_model_path (model_name : string) (f : node) :
  fst (fst (get_model_status model_name f)) <> not_downloaded ->
  snd (fst (get_model_status model_name f)) = Some (root_path model_name).
Proof.
  rewrite get_model_status_unfold.
  repeat match goal with |- context [if ?b then _ else _] => destruct b end;
    simpl; congruence.
Qed.

Lemma remove_model_unfold (model_name : string) (w : world E) :
  remove_model model_name w =
  let '(st, model_path, _) := get_model_status model_name (fs w) in
  match st with
  | not_downloaded => (false, w, [EvPrint (MsgNotFoundInCache model_name)])
  | _ =>
      let '(ok, w', ev) := shutil_rmtree model_path w in
      (ok, w',
       ev ++ [EvPrint (if ok then MsgCompletelyRemoved model_name
                       else MsgFailedToRemove model_name)])
  end.
Proof.
  unfold remove_model, bind, gets.
  destruct (get_model_status model_name (fs w)) as [[st mp] files].
  destruct st; try reflexivity; cbn [status_eqb app];
    destruct (shutil_rmtree mp w) as [[[|] w'] ev]; reflexivity.
Qed.

(** [shutil.rmtree] succeeds exactly on a directory that [rm_node] can
    empty, and then the path is gone. *)
Lemma shutil_rmtree_cases (q : path) (w : world E) :
  (exists es, lookup q (fs w) = Some (Dir es) /\
              rm_node (denied w) q (Dir es) = None /\
              shutil_rmtree (Some q) w =
              (true, set_fs (remove_at q (fs w)) w, [EvRmtree (Some q) true])) \/
  ((forall es, lookup q (fs w) = Some (Dir es) ->
               rm_node (denied w) q (Dir es) <> None) /\
   exists w', shutil_rmtree (Some q) w = (false, w', [EvRmtree (Some q) false])).
Proof.
  unfold shutil_rmtree.
  destruct (lookup q (fs w)) as [[|es]|] eqn:L.
  - right. split; [discriminate | now exists w].
  - destruct (rm_node (denied w) q (Dir es)) as [r|] eqn:R.
    + right. split; [intros es' [= <-]; congruence | now eexists].
    + left. exists es. auto.
  - right. split; [discriminate | now exists w].
Qed.

(** On [incomplete], the deletions attempted are the files of the list. *)
Lemma clean_incomplete_model_attempts (model_name : string) (w : world E) :
  fst (fst (get_model_status model_name (fs w))) = incomplete ->
  unlink_attempts (snd (clean_incomplete_model model_name w))
  = snd (get_model_status model_name (fs w)).
Proof.
  intros Hst. rewrite clean_incomplete_model_unfold.
  destruct (get_model_status model_name (fs w)) as [[st mp] files].
  cbn [fst snd] in *. subst st.
  pose proof (unlink_each_attempts files w) as Ha.
  destruct (unlink_each files w) as [[u w'] ev]. exact Ha.
Qed.

End MutatorFacts.

(** C2, as the specification states it, fails in what is returned: with
    two partial files, both deleted, the function returns [True], which as
    a number is 1 and not the count 2. *)
Lemma clean_incomplete_model_counterexample :
  let w := World cache_two_partial nothing_denied tt in
  let files := snd (get_model_status "acme/Foo-7B" (fs w)) in
  let r := fst (fst (clean_incomplete_model "acme/Foo-7B" w)) in
  let w' := snd (fst (clean_incomplete_model "acme/Foo-7B" w)) in
  fst (fst (get_model_status "acme/Foo-7B" (fs w))) = incomplete /\
  removed_count files (fs w) (fs w') = 2 /\
  r = true /\
  py_int r <> removed_count files (fs w) (fs w').
Proof. repeat split. vm_compute. discriminate. Qed.

(** C2, amended. [clean_incomplete_model] re-inspects.  If the status is
    not [incomplete] it returns [False] and changes nothing.  If the status
    is [incomplete] it attempts to delete every file of the list, one after
    the other whatever the outcome of the ones before, every file whose
    deletion succeeds is gone afterwards, and it returns [True]. *)
Theorem clean_incomplete_model_spec {E : Type} (model_name : string) (w : world E) :
  let st := fst (fst (get_model_status model_name (fs w))) in
  let files := snd (get_model_status model_name (fs w)) in
  let r := fst (fst (clean_incomplete_model model_name w)) in
  let w' := snd (fst (clean_incomplete_model model_name w)) in
  let ev := snd (clean_incomplete_model model_name w) in
  (st <> incomplete ->
     r = false /\ w' = w /\ unlink_attempts ev = []) /\
  (st = incomplete ->
     r = true /\
     unlink_attempts ev = files /\
     (forall p, In (EvUnlink p true) ev -> path_exists p (fs w') = false) /\
     (forall p, path_exists p (fs w) = false -> path_exists p (fs w') = false)).
Proof.
  cbv zeta. rewrite clean_incomplete_model_unfold.
  pose proof (status_files_nonempty model_name (fs w)) as Hne.
  destruct (get_model_status model_name (fs w)) as [[st mp] files].
  cbn [fst snd] in *. split; intros Hst.
  - destruct st; try congruence; auto.
  - subst st.
    pose proof (unlink_each_attempts files w) as Ha.
    pose proof (unlink_each_removed files w) as Hr.
    pose proof (fun q => unlink_each_gone_stays files q w) as Hg.
    destruct (unlink_each files w) as [[u w'] ev]. cbn [fst snd] in *.
    repeat split.
    + exact Ha.
    + intros p [[=] | Hin]. now apply Hr.
    + exact Hg.
Qed.

Lemma clean_incomplete_model_spec_witness :
  let w := World cache_partial nothing_denied tt in
  fst (fst (get_model_status "acme/Foo-7B" (fs w))) = incomplete /\
  fst (fst (clean_incomplete_model "acme/Foo-7B" w)) = true /\
  fst (fst (get_model_status "acme/Foo-7B" (World cache_complete nothing_denied tt).(fs)))
  <> incomplete /\
  fst (fst (clean_incomplete_model "acme/Foo-7B"
              (World cache_complete nothing_denied tt))) = false.
Proof.
  cbv zeta. split; [reflexivity|]. split.
  - apply (proj2 (clean_incomplete_model_spec "acme/Foo-7B"
                    (World cache_partial nothing_denied tt))).
    reflexivity.
  - split; [discriminate|].
    apply (proj1 (clean_incomplete_model_spec "acme/Foo-7B"
                    (World cache_complete nothing_denied tt))).
    discriminate.
Defined.

(** C8. [remove_model] re-inspects.  On [not_downloaded] it returns
    [False] and leaves the file system as it was.  On any other status it
    calls [shutil.rmtree] on the model directory: it returns [True] exactly
    when the whole tree could be deleted (as it can when the path is a
    directory and the system refuses nothing), and then the directory is
    gone; otherwise it returns [False] and reports the failure. *)
Theorem remove_model_spec {E : Type} (model_name : string) (w : world E) :
  let st := fst (fst (get_model_status model_name (fs w))) in
  let r := fst (fst (remove_model model_name w)) in
  let w' := snd (fst (remove_model model_name w)) in
  let ev := snd (remove_model model_name w) in
  let root := root_path model_name in
  (st = not_downloaded ->
     r = false /\ w' = w /\ ev = [EvPrint (MsgNotFoundInCache model_name)]) /\
  (st <> not_downloaded ->
     (r = true <->
      exists es, lookup root (fs w) = Some (Dir es) /\
                 rm_node (denied w) root (Dir es) = None) /\
     (is_dir root (fs w) = true -> (forall p, denied w p = false) -> r = true) /\
     (r = true ->
        path_exists root (fs w') = false /\
        ev = [EvRmtree (Some root) true;
              EvPrint (MsgCompletelyRemoved model_name)]) /\
     (r = false ->
        ev = [EvRmtree (Some root) false;
              EvPrint (MsgFailedToRemove model_name)])).
Proof.
  cbv zeta. rewrite remove_model_unfold.
  pose proof (status_model_path model_name (fs w)) as Hp.
  destruct (get_model_status model_name (fs w)) as [[st mp] files].
  cbn [fst snd] in *. split; intros Hst; [subst st; auto|].
  rewrite (Hp Hst).
  assert (Hiff : forall b : bool,
            (b = true <->
             exists es, lookup (root_path model_name) (fs w) = Some (Dir es) /\
                        rm_node (denied w) (root_path model_name) (Dir es) = None) ->
            is_dir (root_path model_name) (fs w) = true ->
            (forall p, denied w p = false) -> b = true).
  { intros b Hb Hdir Hfree. apply Hb. unfold is_dir in Hdir.
    destruct (lookup (root_path model_name) (fs w)) as [[|es]|];
      try discriminate.
    exists es. split; [reflexivity|]. now apply rm_node_nothing_denied. }
  destruct st; [congruence| | | |];
    (destruct (shutil_rmtree_cases (root_path model_name) w)
       as [(es & L & R & ->) | (N & w2 & ->)]; cbn [fst snd app];
     [ assert (Hgone : path_exists (root_path model_name)
                         (fs (set_fs (remove_at (root_path model_name) (fs w)) w))
                       = false)
         by (unfold path_exists, set_fs; cbn [fs];
             rewrite lookup_remove_at_same; [reflexivity|];
             unfold root_path; intros Hnil;
             now apply app_eq_nil in Hnil as [_ ?]);
       repeat split; try discriminate; try exact Hgone; eauto
     | assert (Hno : ~ exists es,
                  lookup (root_path model_name) (fs w) = Some (Dir es) /\
                  rm_node (denied w) (root_path model_name) (Dir es) = None)
         by (intros (es & L & R); now apply N in L);
       split; [split; [discriminate | tauto]|];
       split; [apply Hiff; split; [discriminate | tauto]|];
       split; [discriminate | reflexivity] ]).
Qed.

Lemma remove_model_spec_witness :
  fst (fst (remove_model "acme/Foo-7B"
              (World (home_with []) nothing_denied tt))) = false /\
  fst (fst (remove_model "acme/Foo-7B"
              (World cache_partial nothing_denied tt))) = true /\
  path_exists (root_path "acme/Foo-7B")
    (fs (snd (fst (remove_model "acme/Foo-7B"
                     (World cache_partial nothing_denied tt))))) = false.
Proof.
  split.
  - apply (proj1 (remove_model_spec "acme/Foo-7B"
                    (World (home_with []) nothing_denied tt))).
    reflexivity.
  - destruct (proj2 (remove_model_spec "acme/Foo-7B"
                       (World cache_partial nothing_denied tt)))
      as (Hiff & _ & Hgone & _); [discriminate|].
    assert (R : fst (fst (remove_model "acme/Foo-7B"
                            (World cache_partial nothing_denied tt))) = true)
      by (apply (proj2 Hiff); eexists; split; reflexivity).
    split; [exact R | exact (proj1 (Hgone R))].
Defined.

(** ** Orchestration: [download_model] *)

Section ServiceFacts.

Context {E : Type}.
Variable snapshot_download : string -> bool -> node -> E -> option string * node * E.
Variable load : string -> node -> E -> bool * node * E.

Lemma download_and_verify_unfold (model_name : string) (verify force : bool)
    (w : world E) :
  download_and_verify snapshot_download load model_name verify force w =
  let '(r, f1, e1) := snapshot_download model_name force (fs w) (ext w) in
  let w1 := World f1 (denied w) e1 in
  match r with
  | None =>
      (false, w1,
       [EvPrint (MsgDownloading model_name); EvFetch model_name force None;
        EvPrint MsgDownloadFailed])
  | Some local_path =>
      let st := fst (fst (get_model_status model_name f1)) in
      let warn := if status_eqb st complete then []
                  else [EvPrint (MsgMayBeIncomplete st)] in
      if verify then
        let '(ok, f2, e2) := load model_name f1 e1 in
        (ok, World f2 (denied w) e2,
         [EvPrint (MsgDownloading model_name);
          EvFetch model_name force (Some local_path);
          EvPrint (MsgDownloadedTo local_path)]
         ++ warn
         ++ [EvPrint MsgVerifying; EvLoad model_name ok;
             EvPrint (if ok then MsgVerified model_name
                      else MsgVerificationFailed)])
      else
        (true, w1,
         [EvPrint (MsgDownloading model_name);
          EvFetch model_name force (Some local_path);
          EvPrint (MsgDownloadedTo local_path)] ++ warn)
  end.
Proof.
  unfold download_and_verify, bind, print, ret, gets,
    call_snapshot_download, call_load.
  destruct (snapshot_download model_name force (fs w) (ext w)) as [[[lp|] f1] e1];
    [|reflexivity].
  cbn.
  destruct (get_model_status model_name f1) as [[st mp] files]. cbn.
  destruct verify, (status_eqb st complete); cbn; try reflexivity;
    destruct (load model_name f1 e1) as [[[|] f2] e2]; reflexivity.
Qed.

Ltac destruct_dv :=
  match goal with
  | |- context [download_and_verify ?a ?b ?c ?d ?e ?f] =>
      destruct (download_and_verify a b c d e f) as [[?r ?w2] ?ev]
  end.

Lemma download_model_unfold (model_name : string) (verify force : bool)
    (w : world E) :
  download_model snapshot_download load model_name verify force w =
  let '(st, _, files) := get_model_status model_name (fs w) in
  if status_eqb st complete && negb force then
    if verify then
      let '(ok, f1, e1) := load model_name (fs w) (ext w) in
      let w1 := World f1 (denied w) e1 in
      if ok then
        (true, w1,
         [EvPrint (MsgAlreadyComplete model_name); EvPrint MsgVerifying;
          EvLoad model_name true; EvPrint (MsgVerified model_name)])
      else
        let '(r, w2, ev) :=
          download_and_verify snapshot_download load model_name verify force w1 in
        (r, w2,
         [EvPrint (MsgAlreadyComplete model_name); EvPrint MsgVerifying;
          EvLoad model_name false; EvPrint MsgVerificationFailed;
          EvPrint MsgRedownloading] ++ ev)
    else (true, w, [EvPrint (MsgAlreadyComplete model_name)])
  else if status_eqb st incomplete then
    let '(_, wc, evc) := clean_incomplete_model model_name w in
    let '(r, w2, ev) :=
      download_and_verify snapshot_download load model_name verify force wc in
    (r, w2, EvPrint (MsgFoundIncomplete (length files)) :: evc ++ ev)
  else download_and_verify snapshot_download load model_name verify force w.
Proof.
  unfold download_model, bind, gets, print, ret, call_load.
  destruct (get_model_status model_name (fs w)) as [[st mp] files].
  destruct st, force, verify; cbn [status_eqb andb negb];
    try (destruct (load model_name (fs w) (ext w)) as [[[|] f1] e1]);
    try (destruct (clean_incomplete_model model_name w) as [[rc wc] evc]);
    cbn -[download_and_verify]; try destruct_dv;
    cbn -[download_and_verify]; rewrite ?app_nil_r; reflexivity.
Qed.

Lemma local_no_fetch (ev : list event) :
  forallb is_local ev = true -> no_fetch ev = true.
Proof.
  unfold no_fetch. induction ev as [|e ev IH]; [reflexivity|].
  simpl. rewrite !andb_true_iff. intros [He Hev].
  split; [now destruct e | now apply IH].
Qed.

Lemma after_fetch_app (l ev : list event) :
  no_fetch l = true -> after_fetch (l ++ ev) = after_fetch ev.
Proof.
  unfold no_fetch. induction l as [|e l IH]; [reflexivity|].
  simpl. rewrite andb_true_iff. intros [He Hl].
  destruct e; try discriminate; now apply IH.
Qed.

Lemma in_fetch_app (l ev : list event) (n : string) (b : bool) (r : option string) :
  no_fetch l = true -> In (EvFetch n b r) (l ++ ev) -> In (EvFetch n b r) ev.
Proof.
  unfold no_fetch. intros Hl Hin. apply in_app_or in Hin as [Hin|Hin]; [|exact Hin].
  rewrite forallb_forall in Hl. now apply Hl in Hin.
Qed.

Lemma clean_incomplete_model_local (model_name : string) (w : world E) :
  forallb is_local (snd (clean_incomplete_model model_name w)) = true.
Proof.
  rewrite clean_incomplete_model_unfold.
  destruct (get_model_status model_name (fs w)) as [[st mp] files].
  destruct st; try reflexivity.
  pose proof (unlink_each_local files w) as L.
  destruct (unlink_each files w) as [[u w'] ev]. exact L.
Qed.

Lemma failures_surface_app (model_name : string) (verify force r : bool)
    (l ev : list event) :
  no_fetch l = true ->
  failures_surface model_name verify force r ev ->
  failures_surface model_name verify force r (l ++ ev).
Proof.
  intros Hl (H1 & H2 & H3). unfold failures_surface.
  rewrite (after_fetch_app l ev Hl). repeat split.
  - intros Hin. apply H1. eapply in_fetch_app; eassumption.
  - intros Hv lp Hin. apply (H2 Hv lp). eapply in_fetch_app; eassumption.
  - exact H3.
Qed.

Lemma download_and_verify_starts (model_name : string) (verify force : bool)
    (w : world E) :
  exists local_path rest,
    snd (download_and_verify snapshot_download load model_name verify force w)
    = EvPrint (MsgDownloading model_name)
      :: EvFetch model_name force local_path :: rest.
Proof.
  rewrite download_and_verify_unfold.
  destruct (snapshot_download model_name force (fs w) (ext w)) as [[[lp|] f1] e1];
    cbv zeta.
  - destruct verify; [destruct (load model_name f1 e1) as [[ok f2] e2]|];
      cbn [snd app]; eauto.
  - cbn [snd]. eauto.
Qed.

Lemma download_and_verify_failures (model_name : string) (verify force : bool)
    (w : world E) :
  failures_surface model_name verify force
    (fst (fst (download_and_verify snapshot_download load model_name verify force w)))
    (snd (download_and_verify snapshot_download load model_name verify force w)).
Proof.
  rewrite download_and_verify_unfold.
  destruct (snapshot_download model_name force (fs w) (ext w)) as [[[lp|] f1] e1];
    cbv zeta.
  - set (warn := if status_eqb _ complete then _ else _).
    assert (Hw : forall e, In e warn -> exists m, e = EvPrint m).
    { intros e Hin. subst warn.
      destruct (status_eqb _ complete); simpl in Hin; [tauto|].
      destruct Hin as [<- | []]. eauto. }
    destruct verify.
    + destruct (load model_name f1 e1) as [[ok f2] e2].
      cbn [fst snd app after_fetch]. split; [|split].
      * intros [[=] | [[=] | [[=] | Hin]]].
        apply in_app_or in Hin as [Hin | Hin];
          [apply Hw in Hin as [m [=]] | simpl in Hin; intuition discriminate].
      * intros _ lp' _. exists ok. split; [|reflexivity].
        right. apply in_or_app. right. simpl. auto.
      * intros [[=] | Hin].
        apply in_app_or in Hin as [Hin | Hin];
          [apply Hw in Hin as [m [=]]|].
        simpl in Hin. destruct Hin as [[=] | [[= <-] | [[=] | []]]].
        reflexivity.
    + cbn [fst snd app after_fetch]. split; [|split].
      * intros [[=] | [[=] | [[=] | Hin]]]. apply Hw in Hin as [m [=]].
      * discriminate.
      * intros [[=] | Hin]. apply Hw in Hin as [m [=]].
  - cbn [fst snd]. split; [reflexivity|]. split; [|reflexivity].
    intros _ lp Hin. simpl in Hin. intuition discriminate.
Qed.

Lemma download_model_failures (model_name : string) (verify force : bool)
    (w : world E) :
  failures_surface model_name verify force
    (fst (fst (download_model snapshot_download load model_name verify force w)))
    (snd (download_model snapshot_download load model_name verify force w)).
Proof.
  rewrite download_model_unfold.
  pose proof (clean_incomplete_model_local model_name w) as Hc.
  destruct (get_model_status model_name (fs w)) as [[st mp] files].
  destruct (status_eqb st complete && negb force).
  - destruct verify.
    + destruct (load model_name (fs w) (ext w)) as [[[|] f1] e1]; cbv zeta.
      * cbn [fst snd]. split; [|split]; simpl; try tauto.
        -- intuition discriminate.
        -- intros _ lp Hin. intuition discriminate.
      * pose proof (download_and_verify_failures model_name true force
                      (World f1 (denied w) e1)) as Hd.
        destruct_dv. cbn [fst snd] in *.
        now apply failures_surface_app.
    + cbn [fst snd]. split; [|split]; simpl; try tauto.
      * intuition discriminate.
      * discriminate.
  - destruct (status_eqb st incomplete).
    + destruct (clean_incomplete_model model_name w) as [[rc wc] evc].
      pose proof (download_and_verify_failures model_name verify force wc) as Hd.
      destruct_dv. cbn [fst snd] in *.
      change (EvPrint (MsgFoundIncomplete (length files)) :: evc ++ ev)
        with ((EvPrint (MsgFoundIncomplete (length files)) :: evc) ++ ev).
      apply failures_surface_app; [|exact Hd].
      apply local_no_fetch in Hc. exact Hc.
    + apply download_and_verify_failures.
Qed.

End ServiceFacts.

(** C6. With status [complete] and no [force]: without [verify],
    [download_model] returns [True] at once, calling neither collaborator
    and changing nothing; with [verify] it calls the loader, returns [True]
    when the load succeeds, and when the load fails it goes on to download
    again, the result being that of the download. *)
Theorem download_model_complete {E : Type}
    (snapshot_download : string -> bool -> node -> E -> option string * node * E)
    (load : string -> node -> E -> bool * node * E)
    (model_name : string) (w : world E) :
  fst (fst (get_model_status model_name (fs w))) = complete ->
  download_model snapshot_download load model_name false false w
  = (true, w, [EvPrint (MsgAlreadyComplete model_name)]) /\
  (forall f1 e1,
     load model_name (fs w) (ext w) = (true, f1, e1) ->
     download_model snapshot_download load model_name true false w
     = (true, World f1 (denied w) e1,
        [EvPrint (MsgAlreadyComplete model_name); EvPrint MsgVerifying;
         EvLoad model_name true; EvPrint (MsgVerified model_name)])) /\
  (forall f1 e1,
     load model_name (fs w) (ext w) = (false, f1, e1) ->
     (exists local_path rest,
        snd (download_model snapshot_download load model_name true false w)
        = [EvPrint (MsgAlreadyComplete model_name); EvPrint MsgVerifying;
           EvLoad model_name false; EvPrint MsgVerificationFailed;
           EvPrint MsgRedownloading; EvPrint (MsgDownloading model_name);
           EvFetch model_name false local_path] ++ rest) /\
     fst (download_model snapshot_download load model_name true false w)
     = fst (download_and_verify snapshot_download load model_name true false
              (World f1 (denied w) e1))).
Proof.
  intros Hst. rewrite !download_model_unfold.
  destruct (get_model_status model_name (fs w)) as [[st mp] files].
  cbn [fst] in Hst. subst st. cbn [status_eqb andb negb].
  split; [reflexivity|]. split; intros f1 e1 L; rewrite L; [reflexivity|].
  cbv zeta.
  destruct (download_and_verify_starts snapshot_download load model_name true
              false (World f1 (denied w) e1)) as (lp & rest & Hev).
  destruct (download_and_verify snapshot_download load model_name true false
              (World f1 (denied w) e1)) as [[r w2] ev].
  cbn [fst snd] in *. subst ev. split; [|reflexivity].
  exists lp, rest. reflexivity.
Qed.

Lemma download_model_complete_witness :
  let w := World cache_complete nothing_denied tt in
  download_model fetch_succeeds load_succeeds "acme/Foo-7B" false false w
  = (true, w, [EvPrint (MsgAlreadyComplete "acme/Foo-7B")]) /\
  download_model fetch_succeeds load_succeeds "acme/Foo-7B" true false w
  = (true, w,
     [EvPrint (MsgAlreadyComplete "acme/Foo-7B"); EvPrint MsgVerifying;
      EvLoad "acme/Foo-7B" true; EvPrint (MsgVerified "acme/Foo-7B")]) /\
  fst (download_model fetch_fails load_fails "acme/Foo-7B" true false w)
  = fst (download_and_verify fetch_fails load_fails "acme/Foo-7B" true false w).
Proof.
  cbv zeta.
  pose proof (download_model_complete fetch_succeeds load_succeeds "acme/Foo-7B"
                (World cache_complete nothing_denied tt) eq_refl) as (H1 & H2 & _).
  pose proof (download_model_complete fetch_fails load_fails "acme/Foo-7B"
                (World cache_complete nothing_denied tt) eq_refl) as (_ & _ & H3).
  split; [exact H1|]. split.
  - exact (H2 cache_complete tt eq_refl).
  - exact (proj2 (H3 cache_complete tt eq_refl)).
Defined.

(** C7. When the status is [incomplete], [download_model] runs
    [clean_incomplete_model] and only then calls the fetcher.  A fetcher
    failure makes it return [False].  With [verify], a successful fetch is
    followed by a load, and a load that fails after the fetch makes it
    return [False]. *)
Theorem download_model_cleans_and_fails {E : Type}
    (snapshot_download : string -> bool -> node -> E -> option string * node * E)
    (load : string -> node -> E -> bool * node * E)
    (model_name : string) (verify force : bool) (w : world E) :
  let r := fst (fst (download_model snapshot_download load model_name verify force w)) in
  let ev := snd (download_model snapshot_download load model_name verify force w) in
  (fst (fst (get_model_status model_name (fs w))) = incomplete ->
   exists local_path rest,
     ev = EvPrint (MsgFoundIncomplete
                     (length (snd (get_model_status model_name (fs w)))))
          :: snd (clean_incomplete_model model_name w)
          ++ EvPrint (MsgDownloading model_name)
          :: EvFetch model_name force local_path :: rest /\
     unlink_attempts (snd (clean_incomplete_model model_name w))
     = snd (get_model_status model_name (fs w)) /\
     no_fetch (snd (clean_incomplete_model model_name w)) = true) /\
  failures_surface model_name verify force r ev.
Proof.
  cbv zeta. split; [|apply download_model_failures].
  intros Hst. rewrite download_model_unfold.
  pose proof (clean_incomplete_model_attempts model_name w Hst) as Ha.
  pose proof (local_no_fetch _ (clean_incomplete_model_local model_name w)) as Hn.
  destruct (get_model_status model_name (fs w)) as [[st mp] files].
  cbn [fst snd] in *. subst st. cbn [status_eqb andb].
  destruct (clean_incomplete_model model_name w) as [[rc wc] evc].
  destruct (download_and_verify_starts snapshot_download load model_name verify
              force wc) as (lp & rest & Hev).
  destruct (download_and_verify snapshot_download load model_name verify force wc)
    as [[r w2] ev].
  cbn [fst snd] in *. subst ev.
  exists lp, rest. auto.
Qed.

Lemma download_model_cleans_and_fails_witness :
  let w := World cache_partial nothing_denied tt in
  fst (fst (get_model_status "acme/Foo-7B" (fs w))) = incomplete /\
  no_fetch (snd (clean_incomplete_model "acme/Foo-7B" w)) = true /\
  fst (fst (download_model fetch_fails load_succeeds "acme/Foo-7B" true false w))
  = false /\
  fst (fst (download_model fetch_succeeds load_fails "acme/Foo-7B" true false w))
  = false.
Proof.
  cbv zeta. split; [reflexivity|]. split; [|split].
  - destruct (proj1 (download_model_cleans_and_fails fetch_fails load_succeeds
                       "acme/Foo-7B" true false
                       (World cache_partial nothing_denied tt)) eq_refl)
      as (lp & rest & _ & _ & Hn).
    exact Hn.
  - apply (proj1 (proj2 (download_model_cleans_and_fails fetch_fails load_succeeds
                           "acme/Foo-7B" true false
                           (World cache_partial nothing_denied tt)))).
    vm_compute. repeat ((left; reflexivity) || right).
  - apply (proj2 (proj2 (proj2 (download_model_cleans_and_fails fetch_succeeds
                                  load_fails "acme/Foo-7B" true false
                                  (World cache_partial nothing_denied tt))))).
    vm_compute. repeat ((left; reflexivity) || right).
Defined.

(** * Further properties of the program *)

(** ** What a deletion leaves alone *)

Section FrameFacts.

Context {E : Type}.

Lemma remove_at_step (n : string) (q : path) (es : list (string * node)) :
  q <> [] ->
  remove_at (n :: q) (Dir es)
  = Dir (map (fun e => if String.eqb (fst e) n
                       then (fst e, remove_at q (snd e)) else e) es).
Proof. destruct q; [congruence | reflexivity]. Qed.

Lemma replace_at_step (n : string) (q : path) (y : node)
    (es : list (string * node)) :
  replace_at (n :: q) y (Dir es)
  = Dir (map (fun e => if String.eqb (fst e) n
                       then (fst e, replace_at q y (snd e)) else e) es).
Proof. reflexivity. Qed.

Lemma lookup_remove_at_split (c : path) (a b : string) (p' q' : path) (x : node) :
  a <> b ->
  lookup (c ++ b :: q') (remove_at (c ++ a :: p') x) = lookup (c ++ b :: q') x.
Proof.
  intros Hab. apply String.eqb_neq in Hab.
  revert x; induction c as [|m c IH]; intros x.
  - cbn [app]. destruct x as [|es]; [now destruct p'|].
    destruct p' as [|k p'].
    + now rewrite remove_at_last, !lookup_cons, lookup_entry_filter, Hab.
    + now rewrite remove_at_cons, !lookup_cons, lookup_entry_map, Hab.
  - cbn [app]. destruct x as [|es]; [now destruct (c ++ a :: p')|].
    rewrite remove_at_step by (now destruct c).
    rewrite !lookup_cons, lookup_entry_map, String.eqb_refl.
    destruct (lookup_entry m es) as [y|]; [|reflexivity].
    cbn [option_map]. apply IH.
Qed.

Lemma lookup_replace_at_split (c : path) (a b : string) (p' q' : path)
    (y x : node) :
  a <> b ->
  lookup (c ++ b :: q') (replace_at (c ++ a :: p') y x) = lookup (c ++ b :: q') x.
Proof.
  intros Hab. apply String.eqb_neq in Hab.
  revert x; induction c as [|m c IH]; intros x.
  - cbn [app]. destruct x as [|es]; [reflexivity|].
    now rewrite replace_at_step, !lookup_cons, lookup_entry_map, Hab.
  - cbn [app]. destruct x as [|es]; [reflexivity|].
    rewrite replace_at_step, !lookup_cons, lookup_entry_map, String.eqb_refl.
    destruct (lookup_entry m es) as [z|]; [|reflexivity].
    cbn [option_map]. apply IH.
Qed.

Lemma lookup_remove_at_diverge (p q : path) (x : node) :
  diverge p q -> lookup q (remove_at p x) = lookup q x.
Proof.
  intros (c & a & b & p' & q' & -> & -> & Hab).
  now apply lookup_remove_at_split.
Qed.

(** Removing something below [p] keeps [p] in place. *)
Lemma lookup_remove_at_below (p : path) (a : string) (p' : path) (x : node) :
  lookup p (remove_at (p ++ a :: p') x)
  = option_map (remove_at (a :: p')) (lookup p x).
Proof.
  revert x; induction p as [|m p IH]; intros x; [reflexivity|].
  cbn [app]. destruct x as [|es]; [now destruct (p ++ a :: p')|].
  rewrite remove_at_step by (now destruct p).
  rewrite !lookup_cons, lookup_entry_map, String.eqb_refl.
  destruct (lookup_entry m es) as [y|]; [|reflexivity].
  cbn [option_map]. apply IH.
Qed.

Lemma path_exists_remove_at_below (p : path) (a : string) (p' : path) (x : node) :
  path_exists p (remove_at (p ++ a :: p') x) = path_exists p x.
Proof.
  unfold path_exists. rewrite lookup_remove_at_below.
  now destruct (lookup p x).
Qed.

(** The loop of [clean_incomplete_model] changes no path that parts ways
    with every file it is given. *)
Lemma unlink_each_lookup (files : list path) (q : path) (w : world E) :
  Forall (fun p => diverge p q) files ->
  lookup q (fs (snd (fst (unlink_each files w)))) = lookup q (fs w).
Proof.
  intros F; revert w; induction F as [|p rest Hp F IH]; intros w;
    [reflexivity|].
  rewrite unlink_each_cons.
  destruct (path_unlink_cases p w) as [-> | ->];
    match goal with |- context [unlink_each rest ?v] =>
      specialize (IH v); destruct (unlink_each rest v) as [[u w2] ev2] end;
    cbn [fst snd] in *; rewrite IH; [|reflexivity].
  unfold set_fs. cbn [fs]. now apply lookup_remove_at_diverge.
Qed.

(** ... and keeps in place every path that all its files lie below. *)
Lemma unlink_each_exists_above (files : list path) (q : path) (w : world E) :
  Forall (fun p => exists a p', p = q ++ a :: p') files ->
  path_exists q (fs (snd (fst (unlink_each files w)))) = path_exists q (fs w).
Proof.
  intros F; revert w; induction F as [|p rest Hp F IH]; intros w;
    [reflexivity|].
  rewrite unlink_each_cons.
  destruct (path_unlink_cases p w) as [-> | ->];
    match goal with |- context [unlink_each rest ?v] =>
      specialize (IH v); destruct (unlink_each rest v) as [[u w2] ev2] end;
    cbn [fst snd] in *; rewrite IH; [|reflexivity].
  destruct Hp as (a & p' & ->). unfold set_fs. cbn [fs].
  apply path_exists_remove_at_below.
Qed.

(** [get_model_status] reads nothing outside the model directory. *)
Lemma get_model_status_ext (model_name : string) (f f' : node) :
  (forall q, lookup (root_path model_name ++ q) f'
             = lookup (root_path model_name ++ q) f) ->
  get_model_status model_name f' = get_model_status model_name f.
Proof.
  intros H. pose proof (H []) as H0. rewrite app_nil_r in H0.
  pose proof (H ["blobs"]) as Hb. pose proof (H ["snapshots"]) as Hs.
  unfold get_model_status, glob, listdir, path_exists.
  fold (root_path model_name). now rewrite H0, Hb, Hs.
Qed.

Lemma root_path_diverge (m1 m2 : string) (p' q' : path) :
  model_dir_name m1 <> model_dir_name m2 ->
  diverge (root_path m1 ++ p') (root_path m2 ++ q').
Proof.
  intros Hne. exists get_cache_path, (model_dir_name m1), (model_dir_name m2), p', q'.
  unfold root_path. now rewrite <- !app_assoc.
Qed.

End FrameFacts.

(** ** Deleting, then inspecting *)

Section MutatorCompose.

Context {E : Type}.

Lemma lookup_entry_in (n : string) (es : list (string * node)) :
  lookup_entry n es <> None <-> In n (map fst es).
Proof.
  induction es as [|[m x] es IH]; simpl; [tauto|].
  destruct (String.eqb m n) eqn:Q.
  - apply String.eqb_eq in Q. split; [auto | discriminate].
  - apply String.eqb_neq in Q. rewrite IH. tauto.
Qed.

Lemma listdir_iff_exists (d : path) (n : string) (f : node) :
  In n (listdir d f) <-> path_exists (d ++ [n]) f = true.
Proof.
  unfold listdir, path_exists. rewrite lookup_app.
  destruct (lookup d f) as [[|es]|]; simpl; try (split; [tauto | discriminate]).
  rewrite <- lookup_entry_in.
  destruct (lookup_entry n es); split; congruence.
Qed.

Lemma unlink_attempt_event (p : path) (ev : list event) :
  In p (unlink_attempts ev) -> exists ok, In (EvUnlink p ok) ev.
Proof.
  unfold unlink_attempts. rewrite in_flat_map.
  intros (e & He & Hp). destruct e; simpl in Hp; try tauto.
  destruct Hp as [<- | []]. eauto.
Qed.

Lemma marked_blobs_below (model_name : string) (f : node) :
  Forall (fun p => exists n, p = blobs_path model_name ++ [n] /\
                             has_marker n = true)
         (marked_blobs model_name f).
Proof.
  apply Forall_forall. intros p Hp. unfold marked_blobs in Hp.
  apply in_map_iff in Hp as (n & <- & Hn). apply filter_In in Hn as [_ Hm].
  eauto.
Qed.

(** What [clean_incomplete_model] does to the world: nothing, or the loop
    over the marked blobs. *)
Lemma clean_incomplete_model_cases (model_name : string) (w : world E) :
  (fst (fst (get_model_status model_name (fs w))) <> incomplete /\
   snd (fst (clean_incomplete_model model_name w)) = w) \/
  (fst (fst (get_model_status model_name (fs w))) = incomplete /\
   snd (fst (clean_incomplete_model model_name w))
   = snd (fst (unlink_each (marked_blobs model_name (fs w)) w)) /\
   snd (clean_incomplete_model model_name w)
   = EvPrint (MsgCleaning (length (marked_blobs model_name (fs w))) model_name)
     :: snd (unlink_each (marked_blobs model_name (fs w)) w)).
Proof.
  rewrite clean_incomplete_model_unfold, get_model_status_unfold.
  repeat match goal with |- context [if ?b then _ else _] => destruct b end;
    cbn [fst snd]; try (left; split; [discriminate | reflexivity]).
  right. destruct (unlink_each _ w) as [[u w'] ev]. auto.
Qed.

Lemma shutil_rmtree_fs (q : path) (w : world E) :
  fs (snd (fst (shutil_rmtree (Some q) w))) = fs w \/
  fs (snd (fst (shutil_rmtree (Some q) w))) = remove_at q (fs w) \/
  exists r, fs (snd (fst (shutil_rmtree (Some q) w))) = replace_at q r (fs w).
Proof.
  unfold shutil_rmtree.
  destruct (lookup q (fs w)) as [[|es]|]; auto.
  destruct (rm_node (denied w) q (Dir es)); cbn [fst snd set_fs fs]; eauto.
Qed.

Lemma remove_model_fs (model_name : string) (w : world E) :
  fs (snd (fst (remove_model model_name w))) = fs w \/
  fs (snd (fst (remove_model model_name w)))
  = remove_at (root_path model_name) (fs w) \/
  exists r, fs (snd (fst (remove_model model_name w)))
            = replace_at (root_path model_name) r (fs w).
Proof.
  rewrite remove_model_unfold.
  pose proof (status_model_path model_name (fs w)) as Hp.
  destruct (get_model_status model_name (fs w)) as [[st mp] files].
  cbn [fst snd] in Hp.
  destruct st; [now left| | | |];
    (rewrite Hp by discriminate;
     pose proof (shutil_rmtree_fs (root_path model_name) w) as H;
     destruct (shutil_rmtree (Some (root_path model_name)) w) as [[ok w'] ev];
     exact H).
Qed.

(** When no deletion fails, the model is not [incomplete] afterwards. *)
Lemma clean_succeeded_status (model_name : string) (w : world E) :
  (forall p, ~ In (EvUnlink p false) (snd (clean_incomplete_model model_name w))) ->
  fst (fst (get_model_status model_name
              (fs (snd (fst (clean_incomplete_model model_name w))))))
  <> incomplete.
Proof.
  destruct (clean_incomplete_model_cases model_name w)
    as [[Hn ->] | (_ & -> & ->)]; [intros _; exact Hn|].
  pose proof (marked_blobs_below model_name (fs w)) as Hb.
  set (files := marked_blobs model_name (fs w)) in *.
  intros Hall Hst. rewrite get_model_status_unfold in Hst.
  repeat match type of Hst with context [if ?b then _ else _] =>
           destruct b eqn:? end; try discriminate.
  match goal with H : existsb _ _ = true |- _ =>
    apply existsb_exists in H as (n & Hin & Hm) end.
  apply listdir_iff_exists in Hin.
  assert (Hbefore : path_exists (blobs_path model_name ++ [n]) (fs w) = true).
  { destruct (path_exists (blobs_path model_name ++ [n]) (fs w)) eqn:B;
      [reflexivity|].
    rewrite (unlink_each_gone_stays files _ w B) in Hin. discriminate. }
  apply listdir_iff_exists in Hbefore.
  assert (Hf : In (blobs_path model_name ++ [n]) files)
    by (apply in_marked_blobs; auto).
  rewrite <- (unlink_each_attempts files w) in Hf.
  apply unlink_attempt_event in Hf as [ok Hf].
  destruct ok.
  - apply unlink_each_removed in Hf.
    + rewrite Hf in Hin. discriminate.
    + eapply Forall_impl; [|exact Hb]. intros p (m & -> & _) Hnil.
      now apply app_eq_nil in Hnil as [_ ?].
  - apply (Hall (blobs_path model_name ++ [n])). now right.
Qed.

(** Cleaning one model leaves the status of a model with another
    directory name as it was. *)
Lemma clean_other_model (m1 m2 : string) (w : world E) :
  model_dir_name m1 <> model_dir_name m2 ->
  get_model_status m2 (fs (snd (fst (clean_incomplete_model m1 w))))
  = get_model_status m2 (fs w).
Proof.
  intros Hne.
  destruct (clean_incomplete_model_cases m1 w)
    as [[_ ->] | (_ & -> & _)]; [reflexivity|].
  apply get_model_status_ext. intros q. apply unlink_each_lookup.
  eapply Forall_impl; [|apply marked_blobs_below]. intros p (m & -> & Hm).
  unfold blobs_path. rewrite <- app_assoc.
  now apply root_path_diverge.
Qed.

(** Cleaning never makes a model [incomplete]. *)
Lemma clean_never_incomplete (m' m : string) (w : world E) :
  fst (fst (get_model_status m (fs w))) <> incomplete ->
  fst (fst (get_model_status m (fs (snd (fst (clean_incomplete_model m' w))))))
  <> incomplete.
Proof.
  intros Hm.
  destruct (string_dec (model_dir_name m') (model_dir_name m)) as [Heq | Hne].
  - assert (Hsame : forall f, get_model_status m f = get_model_status m' f)
      by (intros f; unfold get_model_status; now rewrite Heq).
    destruct (clean_incomplete_model_cases m' w)
      as [[_ ->] | (Hi & _ & _)]; [exact Hm|].
    rewrite Hsame in Hm. contradiction.
  - now rewrite clean_other_model.
Qed.

End MutatorCompose.

(** X1. [remove_model] on one model, whether it succeeds or fails, leaves
    what [get_model_status] reports of every model with another directory
    name as it was. *)
Theorem remove_model_other_models {E : Type} (m1 m2 : string) (w : world E) :
  model_dir_name m1 <> model_dir_name m2 ->
  get_model_status m2 (fs (snd (fst (remove_model m1 w))))
  = get_model_status m2 (fs w).
Proof.
  intros Hne. apply get_model_status_ext. intros q.
  pose proof (root_path_diverge m1 m2 [] q Hne) as D. rewrite app_nil_r in D.
  destruct (remove_model_fs m1 w) as [-> | [-> | [r ->]]]; [reflexivity| |].
  - now apply lookup_remove_at_diverge.
  - destruct D as (c & a & b & p' & q' & -> & -> & Hab).
    now apply lookup_replace_at_split.
Qed.

Lemma remove_model_other_models_witness :
  let w := World cache_two_models nothing_denied tt in
  get_model_status "zeta/Bar" (fs (snd (fst (remove_model "acme/Foo-7B" w))))
  = get_model_status "zeta/Bar" (fs w).
Proof.
  cbv zeta.
  apply (remove_model_other_models "acme/Foo-7B" "zeta/Bar"
           (World cache_two_models nothing_denied tt)).
  vm_compute. discriminate.
Defined.

(** X2. [clean_incomplete_model] touches nothing but marked blobs: every
    entry of [blobs] without the marker suffix, everything under
    [snapshots], and the status of every model with another directory name
    are as before. *)
Theorem clean_incomplete_model_keeps {E : Type} (model_name : string)
    (w : world E) :
  let f' := fs (snd (fst (clean_incomplete_model model_name w))) in
  (forall n q, has_marker n = false ->
     lookup (blobs_path model_name ++ n :: q) f'
     = lookup (blobs_path model_name ++ n :: q) (fs w)) /\
  (forall q, lookup (snapshots_path model_name ++ q) f'
             = lookup (snapshots_path model_name ++ q) (fs w)) /\
  (forall m2, model_dir_name model_name <> model_dir_name m2 ->
     get_model_status m2 f' = get_model_status m2 (fs w)).
Proof.
  cbv zeta.
  destruct (clean_incomplete_model_cases model_name w)
    as [[_ ->] | (_ & -> & _)]; [auto|].
  pose proof (marked_blobs_below model_name (fs w)) as Hb.
  split; [|split].
  - intros n q Hn. apply unlink_each_lookup.
    eapply Forall_impl; [|exact Hb]. intros p (m & -> & Hm).
    exists (blobs_path model_name), m, n, [], q.
    repeat split. congruence.
  - intros q. apply unlink_each_lookup.
    eapply Forall_impl; [|exact Hb]. intros p (m & -> & Hm).
    exists (root_path model_name), "blobs", "snapshots", [m], q.
    unfold blobs_path, snapshots_path. rewrite <- !app_assoc.
    repeat split. discriminate.
  - intros m2 Hne. apply get_model_status_ext. intros q.
    apply unlink_each_lookup.
    eapply Forall_impl; [|exact Hb]. intros p (m & -> & Hm).
    unfold blobs_path. rewrite <- app_assoc.
    now apply root_path_diverge.
Qed.

Lemma clean_incomplete_model_keeps_witness :
  let w := World cache_two_models nothing_denied tt in
  let f' := fs (snd (fst (clean_incomplete_model "acme/Foo-7B" w))) in
  lookup (blobs_path "acme/Foo-7B" ++ ["def456"]) f' = Some File /\
  get_model_status "zeta/Bar" f' = get_model_status "zeta/Bar" (fs w).
Proof.
  cbv zeta.
  destruct (clean_incomplete_model_keeps "acme/Foo-7B"
              (World cache_two_models nothing_denied tt)) as (Hk & _ & Ho).
  split.
  - rewrite (Hk "def456" [] eq_refl). reflexivity.
  - apply Ho. vm_compute. discriminate.
Defined.

(** X3. After [clean_incomplete_model] on an [incomplete] model, the model
    directory and its [blobs] are still there: the status is [incomplete],
    [complete] or [unknown], never [not_downloaded] or [no_blobs].  When no
    deletion failed the status is no longer [incomplete], and cleaning
    again returns [False] and changes nothing. *)
Theorem clean_then_inspect {E : Type} (model_name : string) (w : world E) :
  fst (fst (get_model_status model_name (fs w))) = incomplete ->
  let w' := snd (fst (clean_incomplete_model model_name w)) in
  let ev := snd (clean_incomplete_model model_name w) in
  let st' := fst (fst (get_model_status model_name (fs w'))) in
  (st' = incomplete \/ st' = complete \/ st' = unknown) /\
  ((forall p, ~ In (EvUnlink p false) ev) ->
   st' <> incomplete /\
   clean_incomplete_model model_name w'
   = (false, w', [EvPrint (MsgAppearsComplete model_name)])).
Proof.
  intros Hst. cbv zeta.
  destruct (clean_incomplete_model_cases model_name w)
    as [[Hn _] | (_ & Hw & Hev)]; [congruence|].
  rewrite Hw, Hev. clear Hw Hev.
  pose proof (marked_blobs_below model_name (fs w)) as Hb.
  set (files := marked_blobs model_name (fs w)) in *.
  assert (Hroot : path_exists (root_path model_name)
                    (fs (snd (fst (unlink_each files w)))) = true).
  { rewrite unlink_each_exists_above.
    - rewrite get_model_status_unfold in Hst.
      destruct (path_exists (root_path model_name) (fs w));
        [reflexivity | discriminate].
    - eapply Forall_impl; [|exact Hb]. intros p (m & -> & _).
      exists "blobs", [m]. unfold blobs_path. now rewrite <- app_assoc. }
  assert (Hblobs : path_exists (blobs_path model_name)
                     (fs (snd (fst (unlink_each files w)))) = true).
  { rewrite unlink_each_exists_above.
    - rewrite get_model_status_unfold in Hst.
      destruct (path_exists (root_path model_name) (fs w)); [|discriminate].
      destruct (path_exists (blobs_path model_name) (fs w));
        [reflexivity | discriminate].
    - eapply Forall_impl; [|exact Hb]. intros p (m & -> & _).
      exists m, []. reflexivity. }
  assert (Hcases : forall f,
             path_exists (root_path model_name) f = true ->
             path_exists (blobs_path model_name) f = true ->
             (fst (fst (get_model_status model_name f)) = incomplete /\
              existsb has_marker (listdir (blobs_path model_name) f) = true) \/
             (existsb has_marker (listdir (blobs_path model_name) f) = false /\
              (fst (fst (get_model_status model_name f)) = complete \/
               fst (fst (get_model_status model_name f)) = unknown))).
  { intros f Hr Hbl. rewrite get_model_status_unfold, Hr, Hbl. cbn [negb].
    destruct (existsb has_marker (listdir (blobs_path model_name) f));
      [left; auto | right; split; [reflexivity|]].
    match goal with |- context [if ?b then _ else _] => destruct b end; auto. }
  split.
  - destruct (Hcases _ Hroot Hblobs) as [[? _] | [_ [?|?]]]; auto.
  - intros Hall.
    assert (Hnot : fst (fst (get_model_status model_name
                               (fs (snd (fst (unlink_each files w))))))
                   <> incomplete).
    { pose proof (clean_succeeded_status model_name w) as Hs.
      destruct (clean_incomplete_model_cases model_name w)
        as [[Hn _] | (_ & Hw & Hev)]; [congruence|].
      rewrite Hw, Hev in Hs. apply Hs. exact Hall. }
    destruct (Hcases _ Hroot Hblobs) as [[X _] | [_ Hcu]]; [congruence|].
    split; [exact Hnot|].
    rewrite clean_incomplete_model_unfold.
    destruct (get_model_status model_name (fs (snd (fst (unlink_each files w)))))
      as [[st mp] fl].
    cbn [fst] in Hcu. destruct Hcu; subst st; reflexivity.
Qed.

Lemma clean_then_inspect_witness :
  let w := World cache_partial nothing_denied tt in
  let w' := snd (fst (clean_incomplete_model "acme/Foo-7B" w)) in
  fst (fst (get_model_status "acme/Foo-7B" (fs w))) = incomplete /\
  fst (fst (get_model_status "acme/Foo-7B" (fs w'))) <> incomplete /\
  clean_incomplete_model "acme/Foo-7B" w'
  = (false, w', [EvPrint (MsgAppearsComplete "acme/Foo-7B")]).
Proof.
  cbv zeta. split; [reflexivity|].
  apply (proj2 (clean_then_inspect "acme/Foo-7B"
                  (World cache_partial nothing_denied tt) eq_refl)).
  intros p Hin. vm_compute in Hin.
  repeat (destruct Hin as [Hin | Hin]; [discriminate Hin|]). exact Hin.
Defined.

(** X4. After a [remove_model] that returned [True] the model is
    [not_downloaded], and removing it again returns [False] and changes
    nothing. *)
Theorem remove_then_inspect {E : Type} (model_name : string) (w : world E) :
  fst (fst (remove_model model_name w)) = true ->
  let w' := snd (fst (remove_model model_name w)) in
  get_model_status model_name (fs w') = (not_downloaded, None, []) /\
  remove_model model_name w'
  = (false, w', [EvPrint (MsgNotFoundInCache model_name)]).
Proof.
  intros Hr. cbv zeta.
  assert (Hgone : path_exists (root_path model_name)
                    (fs (snd (fst (remove_model model_name w)))) = false).
  { revert Hr. rewrite remove_model_unfold.
    pose proof (status_model_path model_name (fs w)) as Hp.
    destruct (get_model_status model_name (fs w)) as [[st mp] files].
    cbn [fst snd] in Hp.
    destruct st; [discriminate| | | |];
      (rewrite Hp by discriminate;
       destruct (shutil_rmtree_cases (root_path model_name) w)
         as [(es & L & R & ->) | (N & w2 & ->)]; cbn [fst snd];
       [intros _ | discriminate];
       unfold path_exists, set_fs; cbn [fs];
       rewrite lookup_remove_at_same; [reflexivity|];
       unfold root_path; intros Hnil; now apply app_eq_nil in Hnil as [_ ?]). }
  assert (Hs : get_model_status model_name
                 (fs (snd (fst (remove_model model_name w))))
               = (not_downloaded, None, []))
    by (now rewrite get_model_status_unfold, Hgone).
  split; [exact Hs|].
  rewrite (remove_model_unfold model_name (snd (fst (remove_model model_name w)))).
  now rewrite Hs.
Qed.

Lemma remove_then_inspect_witness :
  let w := World cache_partial nothing_denied tt in
  fst (fst (remove_model "acme/Foo-7B" w)) = true /\
  get_model_status "acme/Foo-7B" (fs (snd (fst (remove_model "acme/Foo-7B" w))))
  = (not_downloaded, None, []).
Proof.
  cbv zeta. split; [reflexivity|].
  apply (proj1 (remove_then_inspect "acme/Foo-7B"
                  (World cache_partial nothing_denied tt) eq_refl)).
Defined.

(** ** More on the codec and on discovery *)

Section CodecMore.

Local Open Scope string_scope.

Lemma find_char_cons (c d : ascii) (s : string) :
  PyStr.find (String c "") (String d s)
  = if Ascii.eqb c d then Some 0 else option_map S (PyStr.find (String c "") s).
Proof.
  rewrite PyStr.find_unfold, prefix_cons, prefix_empty, andb_true_r.
  reflexivity.
Qed.

Lemma find_char_app (c : ascii) (a b : string) :
  PyStr.find (String c "") a = None -> PyStr.find (String c "") b = None ->
  PyStr.find (String c "") (a ++ b) = None.
Proof.
  intros Ha Hb. induction a as [|d a IH]; [exact Hb|].
  change (String d a ++ b) with (String d (a ++ b)).
  rewrite find_char_cons in Ha |- *.
  destruct (Ascii.eqb c d); [discriminate|].
  destruct (PyStr.find (String c "") a); [discriminate|].
  now rewrite IH.
Qed.

Lemma find_char_replace (c : ascii) (new s : string) :
  PyStr.find (String c "") new = None ->
  PyStr.find (String c "") (PyStr.replace c new s) = None.
Proof.
  intros Hn. induction s as [|d s IH]; [reflexivity|].
  cbn [PyStr.replace]. destruct (Ascii.eqb d c) eqn:Q.
  - now apply find_char_app.
  - rewrite find_char_cons, Ascii.eqb_sym, Q. now rewrite IH.
Qed.

(** Decoding undoes encoding on a well-formed pair. *)
Lemma decode_model_dir_name (org name : string) :
  PyStr.contains "/" org = false ->
  PyStr.contains "/" name = false ->
  parts_ok [org; name] ->
  decode_dir_name (model_dir_name (org ++ "/" ++ name)) = Some (org ++ "/" ++ name).
Proof.
  intros So Sn Hok.
  rewrite (model_dir_name_pair org name So Sn), decode_prefixed.
  rewrite split_join; [reflexivity | discriminate | exact Hok].
Qed.

End CodecMore.

(** X5. Whatever the model name, its directory name starts with
    [models--] and contains no [/]: the model path is always a direct
    child of the cache root. *)
Theorem model_dir_name_single_component (model_name : string) :
  PyStr.startswith (model_dir_name model_name) "models--" = true /\
  PyStr.contains "/" (model_dir_name model_name) = false /\
  removelast (root_path model_name) = get_cache_path.
Proof.
  split; [|split].
  - apply startswith_spec. now eexists.
  - apply contains_false. unfold model_dir_name.
    apply find_char_app; [reflexivity|].
    now apply find_char_replace.
  - unfold root_path. apply removelast_last.
Qed.

(** X6. A model whose directory exists in the cache is found by
    [discover_local_models], provided its identifier survives the codec:
    no [/] in the organization or in the name, no [--] in either, and an
    organization that does not end with [-]. *)
Theorem discover_finds_existing {E : Type} (org name : string) (w : world E) :
  PyStr.contains "/" org = false ->
  PyStr.contains "/" name = false ->
  PyStr.contains "--" org = false ->
  PyStr.endswith org "-" = false ->
  PyStr.contains "--" name = false ->
  is_dir (root_path (org ++ "/" ++ name)%string) (fs w) = true ->
  In (org ++ "/" ++ name)%string (fst (fst (discover_local_models w))).
Proof.
  intros So Sn Do Eo Dn Hdir.
  rewrite discover_local_models_value. cbn [fst].
  eapply Permutation_in; [apply Permutation_sym, sorted_Permutation|].
  unfold decoded_models. apply in_flat_map.
  exists (model_dir_name (org ++ "/" ++ name)%string). split.
  - unfold model_dirs. apply filter_In. split.
    + apply listdir_iff_exists. fold (root_path (org ++ "/" ++ name)%string).
      unfold is_dir in Hdir. unfold path_exists.
      destruct (lookup _ (fs w)); [reflexivity | discriminate].
    + apply andb_true_iff. split; [|exact Hdir].
      apply startswith_spec. now eexists.
  - rewrite decode_model_dir_name; [now left | assumption | assumption |].
    simpl. auto.
Qed.

Lemma discover_finds_existing_witness :
  In ("acme" ++ "/" ++ "Foo-7B")%string
     (fst (fst (discover_local_models (World cache_two_models nothing_denied tt)))).
Proof.
  apply (discover_finds_existing "acme" "Foo-7B"
           (World cache_two_models nothing_denied tt)); reflexivity.
Defined.

(** ** The collaborators' side of [download_model] *)

Section ServiceMore.

Context {E : Type}.
Variable snapshot_download : string -> bool -> node -> E -> option string * node * E.
Variable load : string -> node -> E -> bool * node * E.

Lemma calls_app (a b : list event) : calls (a ++ b) = calls a ++ calls b.
Proof. apply filter_app. Qed.

Lemma calls_local (ev : list event) :
  forallb is_local ev = true -> calls ev = [].
Proof.
  unfold calls. induction ev as [|e ev IH]; [reflexivity|].
  simpl. rewrite andb_true_iff. intros [He Hev].
  rewrite He. now apply IH.
Qed.

Lemma download_and_verify_calls (model_name : string) (verify force : bool)
    (w : world E) :
  fetch_phase model_name verify force
    (fst (fst (download_and_verify snapshot_download load model_name verify force w)))
    (calls (snd (download_and_verify snapshot_download load model_name verify force w))).
Proof.
  rewrite download_and_verify_unfold.
  destruct (snapshot_download model_name force (fs w) (ext w)) as [[[lp|] f1] e1];
    cbv zeta; [|left; split; reflexivity].
  set (warn := if status_eqb _ complete then _ else _).
  assert (Hw : calls warn = [])
    by (subst warn; now destruct (status_eqb _ complete)).
  destruct verify.
  - destruct (load model_name f1 e1) as [[ok f2] e2]. cbn [fst snd].
    right; right. exists lp, ok. rewrite !calls_app, Hw.
    repeat split.
  - cbn [fst snd]. right; left. exists lp. rewrite calls_app, Hw.
    repeat split.
Qed.

Lemma download_and_verify_reports (model_name : string) (verify force : bool)
    (w : world E) :
  fst (fst (download_and_verify snapshot_download load model_name verify force w))
  = false ->
  In (EvPrint MsgDownloadFailed)
     (snd (download_and_verify snapshot_download load model_name verify force w)) \/
  In (EvPrint MsgVerificationFailed)
     (snd (download_and_verify snapshot_download load model_name verify force w)).
Proof.
  rewrite download_and_verify_unfold.
  destruct (snapshot_download model_name force (fs w) (ext w)) as [[[lp|] f1] e1];
    cbv zeta; [|intros _; left; simpl; auto].
  destruct verify; [|discriminate].
  destruct (load model_name f1 e1) as [[[|] f2] e2]; cbn [fst snd];
    [discriminate|].
  intros _. right. apply in_or_app. right. apply in_or_app. right.
  simpl. auto.
Qed.

Lemma download_and_verify_deletes_nothing (model_name : string)
    (verify force : bool) (w : world E) :
  forall e,
    In e (snd (download_and_verify snapshot_download load model_name verify force w)) ->
    match e with EvUnlink _ _ | EvRmtree _ _ => False | _ => True end.
Proof.
  rewrite download_and_verify_unfold.
  destruct (snapshot_download model_name force (fs w) (ext w)) as [[[lp|] f1] e1];
    cbv zeta.
  - set (warn := if status_eqb _ complete then _ else _).
    assert (Hw : forall e, In e warn -> exists m, e = EvPrint m).
    { intros e Hin. subst warn.
      destruct (status_eqb _ complete); simpl in Hin; [tauto|].
      destruct Hin as [<- | []]. eauto. }
    destruct verify; [destruct (load model_name f1 e1) as [[ok f2] e2]|];
      cbn [fst snd]; intros e Hin;
      repeat (apply in_app_or in Hin as [Hin | Hin]);
      try (apply Hw in Hin as [m ->]; exact I);
      simpl in Hin; repeat (destruct Hin as [<- | Hin]; [exact I|]);
      destruct Hin.
  - cbn [snd]. intros e Hin. simpl in Hin.
    repeat (destruct Hin as [<- | Hin]; [exact I|]). destruct Hin.
Qed.

Lemma unlink_each_events (files : list path) (w : world E) :
  forall e, In e (snd (unlink_each files w)) ->
  match e with EvPrint _ | EvUnlink _ _ => True | _ => False end.
Proof.
  revert w; induction files as [|p rest IH]; intros w e Hin; [destruct Hin|].
  rewrite unlink_each_cons in Hin.
  destruct (path_unlink_cases p w) as [U | U]; rewrite U in Hin;
    match type of Hin with context [unlink_each rest ?v] =>
      specialize (IH v e); destruct (unlink_each rest v) as [[u w2] ev2] end;
    cbn [fst snd app] in *;
    (destruct Hin as [<- | [<- | Hin]]; [exact I | exact I | exact (IH Hin)]).
Qed.

Lemma clean_incomplete_model_events (model_name : string) (w : world E) :
  forall e, In e (snd (clean_incomplete_model model_name w)) ->
  match e with EvPrint _ | EvUnlink _ _ => True | _ => False end.
Proof.
  intros e. rewrite clean_incomplete_model_unfold.
  destruct (get_model_status model_name (fs w)) as [[st mp] files].
  destruct st; cbn [snd]; try (intros [<- | []]; exact I).
  pose proof (unlink_each_events files w e) as H.
  destruct (unlink_each files w) as [[u w'] ev]. cbn [snd] in *.
  intros [<- | Hin]; [exact I | exact (H Hin)].
Qed.

Lemma unlink_attempts_app (a b : list event) :
  unlink_attempts (a ++ b) = unlink_attempts a ++ unlink_attempts b.
Proof. apply flat_map_app. Qed.

Lemma unlink_attempts_none (ev : list event) :
  (forall e, In e ev ->
     match e with EvUnlink _ _ | EvRmtree _ _ => False | _ => True end) ->
  unlink_attempts ev = [].
Proof.
  induction ev as [|e ev IH]; intros H; [reflexivity|].
  unfold unlink_attempts in *. cbn [flat_map].
  rewrite IH by (intros e' He'; apply H; now right).
  specialize (H e (or_introl eq_refl)). now destruct e.
Qed.

End ServiceMore.

(** X7. The calls [download_model] makes to its collaborators, and its
    result.  Complete and not forced: without [verify] no call and [True];
    with [verify] one load, and [True] if it succeeds, else a download
    follows.  In every other case a download: one fetch with the model
    name and the force flag; [False] if it fails; if it succeeds, [True]
    without [verify], and with [verify] one load whose outcome is the
    result. *)
Theorem download_model_protocol {E : Type}
    (snapshot_download : string -> bool -> node -> E -> option string * node * E)
    (load : string -> node -> E -> bool * node * E)
    (model_name : string) (verify force : bool) (w : world E) :
  let st := fst (fst (get_model_status model_name (fs w))) in
  let r := fst (fst (download_model snapshot_download load model_name verify force w)) in
  let cs := calls (snd (download_model snapshot_download load model_name verify force w)) in
  if status_eqb st complete && negb force then
    if verify then
      (cs = [EvLoad model_name true] /\ r = true) \/
      (exists cs', cs = EvLoad model_name false :: cs' /\
                   fetch_phase model_name verify force r cs')
    else cs = [] /\ r = true
  else fetch_phase model_name verify force r cs.
Proof.
  cbv zeta. rewrite download_model_unfold.
  pose proof (clean_incomplete_model_local model_name w) as Hc.
  destruct (get_model_status model_name (fs w)) as [[st mp] files].
  cbn [fst]. destruct (status_eqb st complete && negb force).
  - destruct verify; [|split; reflexivity].
    destruct (load model_name (fs w) (ext w)) as [[[|] f1] e1]; cbv zeta;
      [left; split; reflexivity|].
    right.
    pose proof (download_and_verify_calls snapshot_download load model_name
                  true force (World f1 (denied w) e1)) as Hd.
    destruct (download_and_verify snapshot_download load model_name true force
                (World f1 (denied w) e1)) as [[r w2] ev].
    cbn [fst snd] in *. exists (calls ev). split; [reflexivity | exact Hd].
  - destruct (status_eqb st incomplete);
      [|apply download_and_verify_calls].
    destruct (clean_incomplete_model model_name w) as [[rc wc] evc].
    pose proof (download_and_verify_calls snapshot_download load model_name
                  verify force wc) as Hd.
    destruct (download_and_verify snapshot_download load model_name verify force wc)
      as [[r w2] ev].
    cbn [fst snd] in *.
    change (EvPrint (MsgFoundIncomplete (length files)) :: evc ++ ev)
      with ([EvPrint (MsgFoundIncomplete (length files))] ++ evc ++ ev).
    rewrite !calls_app, (calls_local evc Hc). exact Hd.
Qed.

(** X8. [download_model] never removes a directory tree, and it tries to
    delete files only when the status it first saw is [incomplete]: then
    exactly the files [get_model_status] listed, otherwise none. *)
Theorem download_model_deletions {E : Type}
    (snapshot_download : string -> bool -> node -> E -> option string * node * E)
    (load : string -> node -> E -> bool * node * E)
    (model_name : string) (verify force : bool) (w : world E) :
  let st := fst (fst (get_model_status model_name (fs w))) in
  let ev := snd (download_model snapshot_download load model_name verify force w) in
  (forall p ok, ~ In (EvRmtree p ok) ev) /\
  unlink_attempts ev
  = if status_eqb st incomplete then snd (get_model_status model_name (fs w))
    else [].
Proof.
  cbv zeta. rewrite download_model_unfold.
  pose proof (clean_incomplete_model_events model_name w) as Hce.
  assert (Hca : fst (fst (get_model_status model_name (fs w))) = incomplete ->
                unlink_attempts (snd (clean_incomplete_model model_name w))
                = snd (get_model_status model_name (fs w)))
    by apply clean_incomplete_model_attempts.
  assert (Hdv : forall v f w0,
            let ev := snd (download_and_verify snapshot_download load model_name
                             v f w0) in
            (forall p ok, ~ In (EvRmtree p ok) ev) /\ unlink_attempts ev = []).
  { intros v f w0.
    pose proof (download_and_verify_deletes_nothing snapshot_download load
                  model_name v f w0) as H.
    split; [intros p ok Hin; exact (H _ Hin)|].
    now apply unlink_attempts_none. }
  destruct (get_model_status model_name (fs w)) as [[st mp] files].
  cbn [fst snd] in *.
  destruct (status_eqb st complete && negb force) eqn:C.
  - assert (st = complete) as -> by (destruct st; try discriminate; reflexivity).
    cbn [status_eqb].
    destruct verify.
    + destruct (load model_name (fs w) (ext w)) as [[[|] f1] e1]; cbv zeta.
      * cbn [snd]. split; [|reflexivity].
        intros p ok Hin. simpl in Hin. intuition discriminate.
      * destruct (Hdv true force (World f1 (denied w) e1)) as [Hr Hu].
        destruct (download_and_verify snapshot_download load model_name true
                    force (World f1 (denied w) e1)) as [[r w2] ev].
        cbn [fst snd] in *. split.
        -- intros p ok Hin. apply in_app_or in Hin as [Hin | Hin];
             [simpl in Hin; intuition discriminate | exact (Hr p ok Hin)].
        -- now rewrite unlink_attempts_app, Hu.
    + cbn [snd]. split; [|reflexivity].
      intros p ok Hin. simpl in Hin. intuition discriminate.
  - destruct (status_eqb st incomplete) eqn:I.
    + assert (st = incomplete) as -> by (destruct st; try discriminate; reflexivity).
      specialize (Hca eq_refl).
      destruct (clean_incomplete_model model_name w) as [[rc wc] evc].
      destruct (Hdv verify force wc) as [Hr Hu].
      destruct (download_and_verify snapshot_download load model_name verify
                  force wc) as [[r w2] ev].
      cbn [fst snd] in *. split.
      * intros p ok [Hin | Hin]; [discriminate|].
        apply in_app_or in Hin as [Hin | Hin];
          [exact (Hce _ Hin) | exact (Hr p ok Hin)].
      * change (EvPrint (MsgFoundIncomplete (length files)) :: evc ++ ev)
          with ([EvPrint (MsgFoundIncomplete (length files))] ++ evc ++ ev).
        rewrite !unlink_attempts_app, Hca, Hu. cbn. now rewrite app_nil_r.
    + apply Hdv.
Qed.

(** X9. [download_model] does not fail silently: when it returns [False]
    it has printed that the download or the verification failed. *)
Theorem download_model_reports_failure {E : Type}
    (snapshot_download : string -> bool -> node -> E -> option string * node * E)
    (load : string -> node -> E -> bool * node * E)
    (model_name : string) (verify force : bool) (w : world E) :
  fst (fst (download_model snapshot_download load model_name verify force w))
  = false ->
  In (EvPrint MsgDownloadFailed)
     (snd (download_model snapshot_download load model_name verify force w)) \/
  In (EvPrint MsgVerificationFailed)
     (snd (download_model snapshot_download load model_name verify force w)).
Proof.
  rewrite download_model_unfold.
  destruct (get_model_status model_name (fs w)) as [[st mp] files].
  destruct (status_eqb st complete && negb force).
  - destruct verify; [|discriminate].
    destruct (load model_name (fs w) (ext w)) as [[[|] f1] e1]; cbv zeta;
      [discriminate|].
    destruct (download_and_verify snapshot_download load model_name true force
                (World f1 (denied w) e1)) as [[r w2] ev].
    cbn [fst snd]. intros _. right. simpl. auto.
  - destruct (status_eqb st incomplete);
      [|apply download_and_verify_reports].
    destruct (clean_incomplete_model model_name w) as [[rc wc] evc].
    pose proof (download_and_verify_reports snapshot_download load model_name
                  verify force wc) as Hd.
    destruct (download_and_verify snapshot_download load model_name verify force wc)
      as [[r w2] ev].
    cbn [fst snd] in *. intros Hr.
    destruct (Hd Hr) as [H | H]; [left | right];
      right; apply in_or_app; now right.
Qed.

Lemma download_model_reports_failure_witness :
  let w := World cache_partial nothing_denied tt in
  fst (fst (download_model fetch_fails load_succeeds "acme/Foo-7B" true false w))
  = false /\
  (In (EvPrint MsgDownloadFailed)
     (snd (download_model fetch_fails load_succeeds "acme/Foo-7B" true false w)) \/
   In (EvPrint MsgVerificationFailed)
     (snd (download_model fetch_fails load_succeeds "acme/Foo-7B" true false w))).
Proof.
  cbv zeta. split; [reflexivity|].
  apply (download_model_reports_failure fetch_fails load_succeeds "acme/Foo-7B"
           true false (World cache_partial nothing_denied tt)).
  reflexivity.
Defined.

(** ** The command line *)

Section CommandLineFacts.

Context {E : Type}.
Variable snapshot_download : string -> bool -> node -> E -> option string * node * E.
Variable load : string -> node -> E -> bool * node * E.
Variable py_int : string -> option Z.
Variable read_line : string -> E -> string * E.

Lemma lift_discover (w : world E) :
  lift discover_local_models w = (sorted (decoded_models (fs w)), w, []).
Proof. unfold lift. now rewrite discover_local_models_value. Qed.

Lemma cbind_discover {A : Type} (k : list string -> C A) (w : world E) :
  cbind (lift discover_local_models) k w = k (sorted (decoded_models (fs w))) w.
Proof.
  unfold cbind. rewrite lift_discover.
  now destruct (k (sorted (decoded_models (fs w))) w) as [[b w2] ev2].
Qed.

Lemma cbind_eq {A B : Type} (m : C A) (k : A -> C B) (w w1 : world E)
    (a : A) (ev1 : list cli_event) :
  m w = (a, w1, ev1) ->
  cbind m k w = (let '(b, w2, ev2) := k a w1 in (b, w2, ev1 ++ ev2)).
Proof. intros H. unfold cbind. now rewrite H. Qed.

Lemma list_lines_trace (i : nat) (models : list string) (w : world E) :
  list_lines i models w
  = (tt, w, map (fun im => list_line (fs w) (fst im) (snd im))
                (combine (seq i (length models)) models)).
Proof.
  revert i; induction models as [|m rest IH]; intros i; [reflexivity|].
  cbn [list_lines length seq combine map fst snd].
  unfold cbind, lift, gets, say, list_line.
  destruct (get_model_status m (fs w)) as [[st mp] files].
  now rewrite IH.
Qed.

Lemma in_combine_seq (a : nat) (l : list string) (i : nat) (m : string) :
  In (i, m) (combine (seq a (length l)) l) ->
  a <= i < a + length l /\ nth (i - a) l "" = m.
Proof.
  revert a; induction l as [|x l IH]; intros a; [intros []|].
  cbn [length seq combine]. intros [[= <- <-] | Hin].
  - rewrite Nat.sub_diag. split; [lia | reflexivity].
  - apply IH in Hin as [Hr Hn]. split; [lia|].
    replace (i - a) with (S (i - S a)) by lia. exact Hn.
Qed.

Lemma listed_line_index (w : world E) (k : nat) (st : status) (m : string)
    (n : nat) :
  In (Say (MsgListLine k st m n)) (snd (list_mlx_models w)) ->
  1 <= k <= length (sorted (decoded_models (fs w))) /\
  nth (k - 1) (sorted (decoded_models (fs w))) "" = m.
Proof.
  unfold list_mlx_models, cbind. rewrite lift_discover.
  destruct (sorted (decoded_models (fs w))) as [|m0 rest] eqn:S.
  - cbn. intros [[=] | [[=] | []]].
  - unfold say, cret. rewrite list_lines_trace. cbn [snd app].
    intros [[=] | Hin]. rewrite app_nil_r in Hin.
    apply in_map_iff in Hin as ([i m'] & Hl & Hin). cbn [fst snd] in Hl.
    unfold list_line in Hl.
    destruct (get_model_status m' (fs w)) as [[st' mp] files].
    injection Hl as -> _ -> _.
    apply in_combine_seq in Hin as [Hr Hn]. split; [lia | exact Hn].
Qed.

Lemma in_range_item (models : list string) (k : nat) :
  1 <= k <= length models ->
  in_range (Z.of_nat k - 1) models = true /\
  item models (Z.of_nat k - 1) = nth (k - 1) models "".
Proof.
  intros Hk. unfold in_range, item. split.
  - apply andb_true_iff. split; [apply Z.leb_le | apply Z.ltb_lt]; lia.
  - f_equal. lia.
Qed.

Lemma in_range_bounds (models : list string) (k : Z) :
  in_range (k - 1) models = true <-> (1 <= k <= Z.of_nat (length models))%Z.
Proof.
  unfold in_range. rewrite andb_true_iff, Z.leb_le, Z.ltb_lt. lia.
Qed.

Lemma lower_is_y (s : string) : lower s = "y" <-> s = "y" \/ s = "Y".
Proof.
  split.
  - destruct s as [|c [|d s']]; try discriminate.
    cbn [lower]. intros [= H].
    destruct c as [[] [] [] [] [] [] [] []]; vm_compute in H;
      try discriminate; auto.
  - intros [-> | ->]; reflexivity.
Qed.

(** Choosing a model prints at most a notice and changes nothing. *)
Lemma select_model_cases (arg : string) (w : world E) :
  (exists m, select_model py_int arg w = (Some m, w, [])) \/
  (exists msg, select_model py_int arg w = (None, w, [Say msg])).
Proof.
  unfold select_model. destruct (py_int arg) as [k|]; [|left; now eexists].
  cbv zeta. rewrite cbind_discover.
  destruct (sorted (decoded_models (fs w))) as [|m0 rest];
    [right; now eexists|].
  destruct (in_range (k - 1) (m0 :: rest));
    [left | right]; now eexists.
Qed.

Lemma main_branch (argv : list string) :
  length argv = 3 ->
  main snapshot_download load py_int read_line argv
  = let command := nth 1 argv "" in
    let arg := nth 2 argv "" in
    if String.eqb command "list" then
      cbind list_mlx_models (fun _ => cret tt)
    else if String.eqb command "download" then
      main_download snapshot_download load py_int arg
    else if String.eqb command "status" then main_status py_int arg
    else if String.eqb command "clean" then main_clean py_int arg
    else if String.eqb command "remove" then main_remove py_int read_line arg
    else if String.eqb command "clean-all" then main_clean_all
    else main_direct snapshot_download load command.
Proof.
  intros H. unfold main. rewrite H. cbn [Nat.ltb Nat.leb Nat.eqb].
  now rewrite !andb_true_r.
Qed.

(** The three ways [remove] ends: nothing selected; the answer is not
    [y]; the answer is [y] and [remove_model] runs. *)
Lemma main_remove_cases (arg : string) (w : world E) :
  (exists msg, main_remove py_int read_line arg w = (tt, w, [Say msg])) \/
  (exists m answer e,
     lower answer <> "y" /\
     main_remove py_int read_line arg w
     = (tt, World (fs w) (denied w) e, [Asked m answer; Say MsgCancelled])) \/
  (exists m answer e,
     lower answer = "y" /\
     main_remove py_int read_line arg w
     = (tt, snd (fst (remove_model m (World (fs w) (denied w) e))),
        Asked m answer
        :: map Core (snd (remove_model m (World (fs w) (denied w) e))))).
Proof.
  unfold main_remove.
  destruct (select_model_cases arg w) as [[m Hs] | [msg Hs]];
    rewrite (cbind_eq _ _ _ _ _ _ Hs); [|left; now exists msg].
  right.
  assert (Hi : input read_line m w
               = (fst (read_line m (ext w)),
                  World (fs w) (denied w) (snd (read_line m (ext w))),
                  [Asked m (fst (read_line m (ext w)))]))
    by (unfold input; now destruct (read_line m (ext w))).
  rewrite (cbind_eq _ _ _ _ _ _ Hi).
  destruct (read_line m (ext w)) as [answer e]. cbn [fst snd].
  destruct (String.eqb (lower answer) "y") eqn:Q.
  - right. apply String.eqb_eq in Q. exists m, answer, e. split; [exact Q|].
    unfold cbind, lift, cret.
    destruct (remove_model m _) as [[r w2] ev]. cbn [fst snd app].
    now rewrite app_nil_r.
  - left. apply String.eqb_neq in Q. exists m, answer, e. split; [exact Q|].
    reflexivity.
Qed.

Lemma in_range_false (models : list string) (k : Z) :
  ~ (1 <= k <= Z.of_nat (length models))%Z -> in_range (k - 1) models = false.
Proof.
  intros H. destruct (in_range (k - 1) models) eqn:R; [|reflexivity].
  now apply in_range_bounds in R.
Qed.

Lemma select_model_bad (arg : string) (k : Z) (w : world E) :
  py_int arg = Some k ->
  ~ (1 <= k <= Z.of_nat (length (sorted (decoded_models (fs w)))))%Z ->
  exists msg,
    select_model py_int arg w = (None, w, [Say msg]) /\
    (sorted (decoded_models (fs w)) <> [] ->
     msg = MsgInvalidNumber (length (sorted (decoded_models (fs w))))).
Proof.
  intros Hint Hk. pose proof (in_range_false _ _ Hk) as Hr.
  unfold select_model. rewrite Hint. cbv zeta. rewrite cbind_discover.
  destruct (sorted (decoded_models (fs w))) as [|m0 rest];
    [eexists; split; [reflexivity | congruence]|].
  rewrite Hr. eexists; split; reflexivity.
Qed.

Lemma clean_each_cons (m : string) (rest : list string) (c : nat) (w : world E) :
  clean_each (m :: rest) c w
  = let '(cleaned, w1, ev1) := clean_incomplete_model m w in
    let '(n, w2, ev2) :=
      clean_each rest (if cleaned then c + 1 else c) w1 in
    (n, w2, map Core ev1 ++ ev2).
Proof.
  cbn [clean_each]. unfold cbind, lift.
  destruct (clean_incomplete_model m w) as [[cleaned w1] ev1]. reflexivity.
Qed.

(** After the loop of [clean-all], when no deletion failed: no model that
    was not [incomplete] has become so, and no model of the list is. *)
Lemma clean_each_effect (models : list string) (c : nat) (w : world E) :
  (forall p, ~ In (Core (EvUnlink p false)) (snd (clean_each models c w))) ->
  (forall m, fst (fst (get_model_status m (fs w))) <> incomplete ->
             fst (fst (get_model_status m
                         (fs (snd (fst (clean_each models c w)))))) <> incomplete) /\
  (forall m, In m models ->
             fst (fst (get_model_status m
                         (fs (snd (fst (clean_each models c w)))))) <> incomplete).
Proof.
  revert c w; induction models as [|x rest IH]; intros c w Hall.
  - split; [intros m Hm; exact Hm | intros m []].
  - rewrite clean_each_cons in *.
    pose proof (clean_succeeded_status x w) as Hx.
    pose proof (fun m => clean_never_incomplete x m w) as Hmono.
    destruct (clean_incomplete_model x w) as [[cleaned w1] ev1].
    specialize (IH (if cleaned then c + 1 else c) w1).
    destruct (clean_each rest (if cleaned then c + 1 else c) w1)
      as [[n w2] ev2].
    cbn [fst snd] in *.
    assert (H1 : forall p, ~ In (EvUnlink p false) ev1).
    { intros p Hin. apply (Hall p). apply in_or_app. left.
      now apply in_map. }
    assert (H2 : forall p, ~ In (Core (EvUnlink p false)) ev2).
    { intros p Hin. apply (Hall p). apply in_or_app. now right. }
    destruct (IH H2) as [IHmono IHall]. split.
    + intros m Hm. apply IHmono, Hmono, Hm.
    + intros m [<- | Hin]; [apply IHmono, Hx, H1 | now apply IHall].
Qed.

Lemma unlink_each_no_header (files : list path) (w : world E) :
  filter is_cleaning (map Core (snd (unlink_each files w))) = [].
Proof.
  revert w; induction files as [|p rest IH]; intros w; [reflexivity|].
  rewrite unlink_each_cons.
  destruct (path_unlink_cases p w) as [-> | ->];
    match goal with |- context [unlink_each rest ?v] =>
      specialize (IH v); destruct (unlink_each rest v) as [[u w2] ev2] end;
    cbn [fst snd app map filter is_cleaning] in *; exact IH.
Qed.

(** A cleaning prints its header exactly when it returns [True]. *)
Lemma clean_header_count (m : string) (w : world E) :
  length (filter is_cleaning (map Core (snd (clean_incomplete_model m w))))
  = if fst (fst (clean_incomplete_model m w)) then 1 else 0.
Proof.
  rewrite clean_incomplete_model_unfold.
  destruct (get_model_status m (fs w)) as [[st mp] files].
  destruct st; try reflexivity.
  pose proof (unlink_each_no_header files w) as H.
  destruct (unlink_each files w) as [[u w'] ev].
  cbn [fst snd map filter is_cleaning] in *. now rewrite H.
Qed.

Lemma clean_each_count (models : list string) (c : nat) (w : world E) :
  fst (fst (clean_each models c w))
  = c + length (filter is_cleaning (snd (clean_each models c w))).
Proof.
  revert c w; induction models as [|x rest IH]; intros c w;
    [cbn; lia|].
  rewrite clean_each_cons.
  pose proof (clean_header_count x w) as Hx.
  destruct (clean_incomplete_model x w) as [[cleaned w1] ev1].
  specialize (IH (if cleaned then c + 1 else c) w1).
  destruct (clean_each rest (if cleaned then c + 1 else c) w1) as [[n w2] ev2].
  cbn [fst snd] in *. rewrite filter_app, length_app, Hx, IH.
  destruct cleaned; lia.
Qed.

Lemma main_clean_all_branch (argv : list string) :
  2 <= length argv -> nth 1 argv "" = "clean-all" ->
  main snapshot_download load py_int read_line argv = main_clean_all.
Proof.
  intros H2 Hcmd. unfold main. rewrite Hcmd.
  replace (Nat.ltb (length argv) 2) with false
    by (symmetry; apply Nat.ltb_ge; exact H2).
  reflexivity.
Qed.

Lemma main_clean_all_unfold (w : world E) :
  main_clean_all w
  = match sorted (decoded_models (fs w)) with
    | [] => (tt, w, [Say MsgNoModelsInCache])
    | m :: rest =>
        let '(n, w2, ev) := clean_each (m :: rest) 0 w in
        (tt, w2, ev ++ [Say (MsgCleanedCount n)])
    end.
Proof.
  unfold main_clean_all. rewrite cbind_discover.
  destruct (sorted (decoded_models (fs w))) as [|m rest]; [reflexivity|].
  unfold cbind, say.
  now destruct (clean_each (m :: rest) 0 w) as [[n w2] ev].
Qed.

Lemma only_says_app (a b : list cli_event) :
  only_says a -> only_says b -> only_says (a ++ b).
Proof.
  intros Ha Hb e Hin. apply in_app_or in Hin as [Hin | Hin]; auto.
Qed.

Lemma only_says_map (l : list (nat * string)) (f : node) :
  only_says (map (fun im => list_line f (fst im) (snd im)) l).
Proof.
  intros e Hin. apply in_map_iff in Hin as ([i m] & <- & _).
  unfold list_line. cbn [fst snd].
  destruct (get_model_status m f) as [[st mp] files]. eauto.
Qed.

Lemma list_mlx_models_pure (w : world E) :
  snd (fst (list_mlx_models w)) = w /\ only_says (snd (list_mlx_models w)).
Proof.
  unfold list_mlx_models. rewrite cbind_discover.
  destruct (sorted (decoded_models (fs w))) as [|m rest].
  - split; [reflexivity|]. intros e Hin. cbn in Hin.
    destruct Hin as [<- | [<- | []]]; eauto.
  - unfold cbind, say, cret. rewrite list_lines_trace. cbn [fst snd app].
    split; [reflexivity|]. rewrite app_nil_r.
    intros e [<- | Hin]; [eauto|]. now apply only_says_map in Hin.
Qed.

Lemma main_status_pure (arg : string) (w : world E) :
  snd (fst (main_status py_int arg w)) = w /\
  only_says (snd (main_status py_int arg w)).
Proof.
  unfold main_status.
  destruct (select_model_cases arg w) as [[m Hs] | [msg Hs]];
    rewrite (cbind_eq _ _ _ _ _ _ Hs).
  - unfold cbind, lift, gets, say, cret.
    destruct (get_model_status m (fs w)) as [[st mp] files].
    destruct mp, files, (status_eqb st incomplete); cbn [fst snd app map];
      (split; [reflexivity|]); intros e Hin;
      repeat (destruct Hin as [<- | Hin]; [eauto|]); destruct Hin.
  - cbn [fst snd cret app]. split; [reflexivity|].
    intros e Hin. cbn in Hin. destruct Hin as [<- | []]. eauto.
Qed.

End CommandLineFacts.

(** X10. [list_mlx_models] returns what [discover_local_models] returns
    and changes nothing.  With no model it prints a notice and the cache
    path; otherwise a header with the count and one line per model, in
    order, numbered from 1, with the status [get_model_status] gives. *)
Theorem list_mlx_models_spec {E : Type} (w : world E) :
  let models := fst (fst (discover_local_models w)) in
  list_mlx_models w
  = (models, w,
     match models with
     | [] => [Say MsgNoModelsFound; Say (MsgCachePath get_cache_path)]
     | _ :: _ =>
         Say (MsgListHeader (length models))
         :: map (fun im => list_line (fs w) (fst im) (snd im))
                (combine (seq 1 (length models)) models)
     end).
Proof.
  cbv zeta. unfold list_mlx_models, cbind.
  rewrite lift_discover, discover_local_models_value. cbn [fst].
  destruct (sorted (decoded_models (fs w))) as [|m rest] eqn:S;
    [reflexivity|].
  unfold say, cret. rewrite list_lines_trace.
  cbn [app]. now rewrite app_nil_r.
Qed.

(** X11. The number [list_mlx_models] prints in front of a model selects
    that very model in [status], [remove], [clean] and [download]. *)
Theorem listed_number_selects {E : Type}
    (snapshot_download : string -> bool -> node -> E -> option string * node * E)
    (load : string -> node -> E -> bool * node * E)
    (py_int : string -> option Z)
    (w : world E) (k : nat) (st : status) (m : string) (n : nat) (arg : string) :
  In (Say (MsgListLine k st m n)) (snd (list_mlx_models w)) ->
  py_int arg = Some (Z.of_nat k) ->
  select_model py_int arg w = (Some m, w, []) /\
  main_clean py_int arg w
  = cbind (lift (clean_incomplete_model m)) (fun _ => cret tt) w /\
  main_download snapshot_download load py_int arg w
  = main_direct snapshot_download load m w.
Proof.
  intros Hin Hint. apply listed_line_index in Hin as [Hk Hm].
  destruct (in_range_item _ k Hk) as [Hr Hi]. rewrite Hm in Hi.
  unfold select_model, main_clean, main_download, main_direct.
  rewrite Hint. cbv zeta. rewrite !cbind_discover.
  destruct (sorted (decoded_models (fs w))) as [|m0 rest] eqn:S;
    [simpl in Hk; lia|].
  rewrite Hr, Hi. repeat split.
Qed.

Lemma listed_number_selects_witness :
  let w := World cache_two_models nothing_denied tt in
  In (Say (MsgListLine 2 complete "zeta/Bar" 0)) (snd (list_mlx_models w)) /\
  select_model sample_int "2" w = (Some "zeta/Bar", w, []).
Proof.
  cbv zeta.
  assert (H : In (Say (MsgListLine 2 complete "zeta/Bar" 0))
                 (snd (list_mlx_models (World cache_two_models nothing_denied tt))))
    by (vm_compute; auto).
  split; [exact H|].
  exact (proj1 (listed_number_selects fetch_fails load_fails sample_int
                  (World cache_two_models nothing_denied tt)
                  2 complete "zeta/Bar" 0 "2" H eq_refl)).
Defined.

(** X12. [remove] deletes only after the answer [y] or [Y]: on any other
    answer, or when no question is asked, the file system is as before and
    none of the functions that delete or download has done anything. *)
Theorem main_remove_needs_confirmation {E : Type}
    (snapshot_download : string -> bool -> node -> E -> option string * node * E)
    (load : string -> node -> E -> bool * node * E)
    (py_int : string -> option Z) (read_line : string -> E -> string * E)
    (argv : list string) (w : world E) :
  length argv = 3 -> nth 1 argv "" = "remove" ->
  let w' := snd (fst (main snapshot_download load py_int read_line argv w)) in
  let ev := snd (main snapshot_download load py_int read_line argv w) in
  (forall m, ~ In (Asked m "y") ev) ->
  (forall m, ~ In (Asked m "Y") ev) ->
  fs w' = fs w /\ denied w' = denied w /\ forall e, ~ In (Core e) ev.
Proof.
  intros Hlen Hcmd. cbv zeta. rewrite (main_branch _ _ _ _ _ Hlen), Hcmd.
  cbv zeta. cbn [String.eqb Ascii.eqb Bool.eqb].
  destruct (main_remove_cases py_int read_line (nth 2 argv "") w)
    as [[msg ->] | [(m & answer & e & Q & ->) | (m & answer & e & Q & ->)]];
    cbn [fst snd fs denied]; intros Hy HY.
  - repeat split. intros e0 [[=] | []].
  - repeat split. intros e0 [[=] | [[=] | []]].
  - exfalso. apply lower_is_y in Q.
    destruct Q as [-> | ->]; [apply (Hy m) | apply (HY m)]; now left.
Qed.

Lemma main_remove_needs_confirmation_witness :
  let w := World cache_two_models nothing_denied tt in
  fs (snd (fst (main fetch_fails load_fails sample_int answers_no
                  ["mlx_downloader.py"; "remove"; "2"] w))) = fs w.
Proof.
  cbv zeta.
  apply (main_remove_needs_confirmation fetch_fails load_fails sample_int
           answers_no ["mlx_downloader.py"; "remove"; "2"]
           (World cache_two_models nothing_denied tt) eq_refl eq_refl);
    intros m Hin; vm_compute in Hin;
    repeat (destruct Hin as [Hin | Hin]; [discriminate Hin|]); exact Hin.
Defined.

(** X13. In [download], [status], [clean] and [remove], a number that is
    not between 1 and the number of discovered models (any number, when
    there is none) makes [main] print one notice and do nothing else. *)
Theorem main_bad_number {E : Type}
    (snapshot_download : string -> bool -> node -> E -> option string * node * E)
    (load : string -> node -> E -> bool * node * E)
    (py_int : string -> option Z) (read_line : string -> E -> string * E)
    (argv : list string) (k : Z) (w : world E) :
  length argv = 3 ->
  In (nth 1 argv "") ["download"; "status"; "clean"; "remove"] ->
  py_int (nth 2 argv "") = Some k ->
  ~ (1 <= k <= Z.of_nat (length (fst (fst (discover_local_models w)))))%Z ->
  exists msg,
    main snapshot_download load py_int read_line argv w = (tt, w, [Say msg]) /\
    (fst (fst (discover_local_models w)) <> [] ->
     msg = MsgInvalidNumber (length (fst (fst (discover_local_models w))))).
Proof.
  intros Hlen Hcmd Hint Hk. rewrite (main_branch _ _ _ _ _ Hlen). cbv zeta.
  rewrite discover_local_models_value in *. cbn [fst] in *.
  pose proof (in_range_false _ _ Hk) as Hr.
  destruct (select_model_bad py_int _ _ w Hint Hk) as (smsg & Hs & Hsm).
  destruct Hcmd as [<- | [<- | [<- | [<- | []]]]];
    cbn [String.eqb Ascii.eqb Bool.eqb].
  - unfold main_download. rewrite cbind_discover, Hint. cbv zeta.
    destruct (sorted (decoded_models (fs w))) as [|m0 rest];
      [eexists; split; [reflexivity | congruence]|].
    rewrite Hr. eexists; split; reflexivity.
  - unfold main_status. rewrite (cbind_eq _ _ _ _ _ _ Hs).
    exists smsg. split; [reflexivity | exact Hsm].
  - unfold main_clean. rewrite Hint. cbv zeta. rewrite cbind_discover.
    destruct (sorted (decoded_models (fs w))) as [|m0 rest];
      [eexists; split; [reflexivity | congruence]|].
    rewrite Hr. eexists; split; reflexivity.
  - unfold main_remove. rewrite (cbind_eq _ _ _ _ _ _ Hs).
    exists smsg. split; [reflexivity | exact Hsm].
Qed.

Lemma main_bad_number_witness :
  let w := World cache_two_models nothing_denied tt in
  main fetch_fails load_fails sample_int answers_yes
    ["mlx_downloader.py"; "remove"; "7"] w
  = (tt, w, [Say (MsgInvalidNumber 2)]).
Proof.
  cbv zeta.
  destruct (main_bad_number fetch_fails load_fails sample_int answers_yes
              ["mlx_downloader.py"; "remove"; "7"] 7
              (World cache_two_models nothing_denied tt))
    as (msg & Hm & Hmsg).
  - reflexivity.
  - simpl. auto.
  - reflexivity.
  - vm_compute. intros [_ H]. apply H. reflexivity.
  - rewrite Hm, Hmsg; [reflexivity|]. vm_compute. discriminate.
Defined.

(** X14. A sub-command with the wrong number of arguments is taken for a
    model name: [download], [status], [clean] or [remove] given without
    its argument, or with more than one, cleans and downloads the model
    named like the command. *)
Theorem main_subcommand_as_model_name {E : Type}
    (snapshot_download : string -> bool -> node -> E -> option string * node * E)
    (load : string -> node -> E -> bool * node * E)
    (py_int : string -> option Z) (read_line : string -> E -> string * E)
    (argv : list string) :
  2 <= length argv -> length argv <> 3 ->
  In (nth 1 argv "") ["download"; "status"; "clean"; "remove"] ->
  main snapshot_download load py_int read_line argv
  = main_direct snapshot_download load (nth 1 argv "").
Proof.
  intros H2 H3 Hcmd. unfold main.
  replace (Nat.ltb (length argv) 2) with false
    by (symmetry; apply Nat.ltb_ge; exact H2).
  replace (Nat.eqb (length argv) 3) with false
    by (symmetry; now apply Nat.eqb_neq).
  destruct Hcmd as [<- | [<- | [<- | [<- | []]]]]; reflexivity.
Qed.

Lemma main_subcommand_as_model_name_witness :
  main fetch_fails load_fails sample_int answers_no
    ["mlx_downloader.py"; "remove"]
  = main_direct fetch_fails load_fails "remove".
Proof.
  apply (main_subcommand_as_model_name fetch_fails load_fails sample_int
           answers_no ["mlx_downloader.py"; "remove"]).
  - simpl. lia.
  - discriminate.
  - simpl. auto.
Defined.

(** X15. After [clean-all] in which no deletion failed, none of the
    discovered models is [incomplete]. *)
Theorem main_clean_all_effect {E : Type}
    (snapshot_download : string -> bool -> node -> E -> option string * node * E)
    (load : string -> node -> E -> bool * node * E)
    (py_int : string -> option Z) (read_line : string -> E -> string * E)
    (argv : list string) (w : world E) :
  2 <= length argv -> nth 1 argv "" = "clean-all" ->
  let w' := snd (fst (main snapshot_download load py_int read_line argv w)) in
  let ev := snd (main snapshot_download load py_int read_line argv w) in
  (forall p, ~ In (Core (EvUnlink p false)) ev) ->
  forall m, In m (fst (fst (discover_local_models w))) ->
            fst (fst (get_model_status m (fs w'))) <> incomplete.
Proof.
  intros H2 Hcmd. cbv zeta.
  rewrite (main_clean_all_branch _ _ _ _ _ H2 Hcmd), main_clean_all_unfold.
  rewrite discover_local_models_value. cbn [fst].
  destruct (sorted (decoded_models (fs w))) as [|m0 rest]; [intros _ m []|].
  pose proof (clean_each_effect (m0 :: rest) 0 w) as Heff.
  destruct (clean_each (m0 :: rest) 0 w) as [[n w2] ev].
  cbn [fst snd] in *. intros Hall m Hin.
  apply Heff; [|exact Hin].
  intros p Hp. apply (Hall p). apply in_or_app. now left.
Qed.

Lemma main_clean_all_effect_witness :
  let w := World cache_two_models nothing_denied tt in
  fst (fst (get_model_status "acme/Foo-7B" (fs w))) = incomplete /\
  fst (fst (get_model_status "acme/Foo-7B"
              (fs (snd (fst (main fetch_fails load_fails sample_int answers_no
                               ["mlx_downloader.py"; "clean-all"] w))))))
  <> incomplete.
Proof.
  cbv zeta. split; [reflexivity|].
  apply (main_clean_all_effect fetch_fails load_fails sample_int answers_no
           ["mlx_downloader.py"; "clean-all"]
           (World cache_two_models nothing_denied tt)).
  - simpl. lia.
  - reflexivity.
  - intros p Hin. vm_compute in Hin.
    repeat (destruct Hin as [Hin | Hin]; [discriminate Hin|]). exact Hin.
  - vm_compute. auto.
Defined.

(** X16. The number [clean-all] reports is the number of models for which
    [clean_incomplete_model] started deleting, that is, returned [True]. *)
Theorem main_clean_all_count {E : Type}
    (snapshot_download : string -> bool -> node -> E -> option string * node * E)
    (load : string -> node -> E -> bool * node * E)
    (py_int : string -> option Z) (read_line : string -> E -> string * E)
    (argv : list string) (w : world E) (n : nat) :
  2 <= length argv -> nth 1 argv "" = "clean-all" ->
  let ev := snd (main snapshot_download load py_int read_line argv w) in
  In (Say (MsgCleanedCount n)) ev ->
  n = length (filter is_cleaning ev).
Proof.
  intros H2 Hcmd. cbv zeta.
  rewrite (main_clean_all_branch _ _ _ _ _ H2 Hcmd), main_clean_all_unfold.
  destruct (sorted (decoded_models (fs w))) as [|m0 rest];
    [intros [[=] | []]|].
  pose proof (clean_each_count (m0 :: rest) 0 w) as Hc.
  assert (Hsay : forall c, ~ In (Say (MsgCleanedCount c))
                             (snd (clean_each (m0 :: rest) 0 w))).
  { generalize (m0 :: rest) 0 w. clear.
    intros models; induction models as [|x l IH]; intros c w k Hin;
      [destruct Hin|].
    rewrite clean_each_cons in Hin.
    destruct (clean_incomplete_model x w) as [[cleaned w1] ev1].
    specialize (IH (if cleaned then c + 1 else c) w1 k).
    destruct (clean_each l (if cleaned then c + 1 else c) w1) as [[n w2] ev2].
    cbn [snd] in *. apply in_app_or in Hin as [Hin | Hin]; [|auto].
    apply in_map_iff in Hin as (e & [=] & _). }
  destruct (clean_each (m0 :: rest) 0 w) as [[k w2] ev].
  cbn [fst snd] in *. intros Hin.
  rewrite filter_app, length_app. cbn [filter is_cleaning length].
  apply in_app_or in Hin as [Hin | [[= ->] | []]];
    [now apply Hsay in Hin | lia].
Qed.

Lemma main_clean_all_count_witness :
  let w := World cache_two_models nothing_denied tt in
  In (Say (MsgCleanedCount 1))
     (snd (main fetch_fails load_fails sample_int answers_no
             ["mlx_downloader.py"; "clean-all"] w)) /\
  1 = length (filter is_cleaning
                (snd (main fetch_fails load_fails sample_int answers_no
                        ["mlx_downloader.py"; "clean-all"] w))).
Proof.
  cbv zeta.
  assert (H : In (Say (MsgCleanedCount 1))
                 (snd (main fetch_fails load_fails sample_int answers_no
                         ["mlx_downloader.py"; "clean-all"]
                         (World cache_two_models nothing_denied tt))))
    by (vm_compute; auto 10).
  split; [exact H|].
  apply (main_clean_all_count fetch_fails load_fails sample_int answers_no
           ["mlx_downloader.py"; "clean-all"]
           (World cache_two_models nothing_denied tt) 1); [simpl; lia | reflexivity | exact H].
Defined.

(** X17. [main] without a command, with [list], and with [status] and one
    argument, is read-only: the world is as before and none of the
    functions that delete or download has been called. *)
Theorem main_read_only {E : Type}
    (snapshot_download : string -> bool -> node -> E -> option string * node * E)
    (load : string -> node -> E -> bool * node * E)
    (py_int : string -> option Z) (read_line : string -> E -> string * E)
    (argv : list string) (w : world E) :
  length argv < 2 \/ nth 1 argv "" = "list" \/
  (nth 1 argv "" = "status" /\ length argv = 3) ->
  snd (fst (main snapshot_download load py_int read_line argv w)) = w /\
  only_says (snd (main snapshot_download load py_int read_line argv w)).
Proof.
  intros Hc.
  assert (Hlist : forall (k : C unit), k = cbind list_mlx_models (fun _ => cret tt) ->
                  snd (fst (k w)) = w /\ only_says (snd (k w))).
  { intros k ->. unfold cbind, cret.
    destruct (list_mlx_models_pure w) as [Hw Hs].
    destruct (list_mlx_models w) as [[l w1] ev1]. cbn [fst snd] in *.
    split; [exact Hw|]. now rewrite app_nil_r. }
  unfold main.
  destruct (Nat.ltb (length argv) 2) eqn:L.
  - rewrite (cbind_eq (say MsgUsage) _ w w tt [Say MsgUsage] eq_refl).
    destruct (Hlist _ eq_refl) as [Hw Hs].
    destruct (cbind list_mlx_models _ w) as [[u w1] ev1].
    cbn [fst snd app] in *.
    split; [exact Hw|]. intros e [<- | Hin]; eauto.
  - apply Nat.ltb_ge in L.
    destruct Hc as [Hc | [Hc | [Hc Hlen]]]; [lia | |]; rewrite Hc.
    + cbn [String.eqb Ascii.eqb Bool.eqb]. now apply Hlist.
    + rewrite Hlen. cbn [String.eqb Ascii.eqb Bool.eqb Nat.eqb andb].
      apply main_status_pure.
Qed.

Lemma main_read_only_witness :
  let w := World cache_two_models nothing_denied tt in
  snd (fst (main fetch_fails load_fails sample_int answers_yes
              ["mlx_downloader.py"; "status"; "1"] w)) = w.
Proof.
  cbv zeta.
  apply (main_read_only fetch_fails load_fails sample_int answers_yes
           ["mlx_downloader.py"; "status"; "1"]
           (World cache_two_models nothing_denied tt)).
  right. right. split; reflexivity.
Defined.

(** ** Decoding, then encoding *)

Section DecodeEncode.

Local Open Scope string_scope.

Lemma find_some_decompose (sep s : string) (i : nat) :
  PyStr.find sep s = Some i ->
  s = PyStr.take i s ++ sep ++ PyStr.drop (i + String.length sep) s.
Proof.
  revert i; induction s as [|c s IH]; intros i; rewrite PyStr.find_unfold;
    destruct (String.prefix sep _) eqn:P.
  - intros [= <-]. apply prefix_spec in P as [r ->].
    cbn [PyStr.take Nat.add append]. now rewrite drop_app.
  - discriminate.
  - intros [= <-]. apply prefix_spec in P as [r ->].
    cbn [PyStr.take Nat.add append]. now rewrite drop_app.
  - destruct (PyStr.find sep s) as [j|]; [|discriminate].
    intros [= <-]. cbn [PyStr.take PyStr.drop Nat.add append].
    now rewrite <- (IH j eq_refl).
Qed.

Lemma split_loop_nonempty (c : ascii) (sep' s : string) :
  PyStr.split_loop c sep' s <> [].
Proof.
  rewrite split_loop_unfold. destruct (PyStr.find _ s); discriminate.
Qed.

Lemma join_cons (sep p : string) (ps : list string) :
  ps <> [] -> PyStr.join sep (p :: ps) = p ++ sep ++ PyStr.join sep ps.
Proof. destruct ps; [congruence | reflexivity]. Qed.

(** [sep.join(s.split(sep)) == s] *)
Lemma join_split_loop (c : ascii) (sep' s : string) :
  PyStr.join (String c sep') (PyStr.split_loop c sep' s) = s.
Proof.
  funelim (PyStr.split_loop c sep' s).
  - rewrite join_cons by apply split_loop_nonempty.
    match goal with IH : PyStr.join _ (PyStr.split_loop _ _ _) = _ |- _ =>
      rewrite IH end.
    symmetry. now apply find_some_decompose.
  - reflexivity.
Qed.

Lemma find_char_app_inv (c : ascii) (a b : string) :
  PyStr.find (String c "") (a ++ b) = None ->
  PyStr.find (String c "") a = None /\ PyStr.find (String c "") b = None.
Proof.
  induction a as [|d a IH]; [now split|].
  change (String d a ++ b) with (String d (a ++ b)).
  rewrite !find_char_cons. destruct (Ascii.eqb c d); [discriminate|].
  destruct (PyStr.find (String c "") (a ++ b)) eqn:F; [discriminate|].
  intros _. destruct (IH eq_refl) as [Ha Hb]. now rewrite Ha.
Qed.

(** No [/] in a joined string: none in its parts, none in their
    [-]-joined form. *)
Lemma find_char_join (c : ascii) (sep sep2 : string) (ps : list string) :
  PyStr.find (String c "") sep2 = None ->
  PyStr.find (String c "") (PyStr.join sep ps) = None ->
  PyStr.find (String c "") (PyStr.join sep2 ps) = None.
Proof.
  intros H2. induction ps as [|p ps IH]; [reflexivity|].
  destruct ps as [|q ps]; [tauto|].
  rewrite !join_cons by discriminate. intros H.
  apply find_char_app_inv in H as [Hp H].
  apply find_char_app_inv in H as [_ H].
  apply find_char_app; [exact Hp|]. apply find_char_app; [exact H2|].
  now apply IH.
Qed.

Lemma join_length_dashes (ps : list string) :
  ps <> [] ->
  String.length (PyStr.join "--" ps)
  = String.length (PyStr.join "-" ps) + (length ps - 1).
Proof.
  induction ps as [|p ps IH]; [congruence|]. intros _.
  destruct ps as [|q ps]; [cbn [PyStr.join String.concat length]; lia|].
  rewrite (join_cons "--"), (join_cons "-") by discriminate.
  rewrite !str_length_app. rewrite IH by discriminate.
  change (String.length "--") with 2. change (String.length "-") with 1.
  cbn [length]. lia.
Qed.

Lemma join_length_lt (ps : list string) :
  2 <= length ps ->
  String.length (PyStr.join "-" ps) < String.length (PyStr.join "--" ps).
Proof.
  intros H. rewrite join_length_dashes by (destruct ps; [simpl in H; lia | discriminate]).
  lia.
Qed.

End DecodeEncode.

(** X18. Decoding, then encoding.  A directory name [models--org--name]
    with no further [--] and no [/] decodes to [org/name], which encodes
    back to that directory name; so when the directory exists the decoded
    model is not reported [not_downloaded]. *)
Theorem decode_then_encode (rest org name : string) :
  PyStr.split "--" rest = Some [org; name] ->
  PyStr.contains "/" rest = false ->
  decode_dir_name ("models--" ++ rest)%string = Some (org ++ "/" ++ name)%string /\
  model_dir_name (org ++ "/" ++ name)%string = ("models--" ++ rest)%string /\
  forall f, path_exists (get_cache_path ++ [("models--" ++ rest)%string]) f = true ->
            fst (fst (get_model_status (org ++ "/" ++ name)%string f))
            <> not_downloaded.
Proof.
  intros Hs Hf.
  assert (Hd : decode_dir_name ("models--" ++ rest)%string
               = Some (org ++ "/" ++ name)%string)
    by (now rewrite decode_prefixed, Hs).
  assert (Hrest : rest = (org ++ "--" ++ name)%string).
  { injection Hs as Hs. rewrite <- (join_split_loop "-" "-" rest), Hs.
    reflexivity. }
  assert (He : model_dir_name (org ++ "/" ++ name)%string
               = ("models--" ++ rest)%string).
  { apply contains_false in Hf. rewrite Hrest in Hf.
    apply find_char_app_inv in Hf as [Ho Hn].
    apply find_char_app_inv in Hn as [_ Hn].
    rewrite model_dir_name_pair by (now apply contains_false).
    now rewrite Hrest. }
  split; [exact Hd|]. split; [exact He|].
  intros f Hex. rewrite get_model_status_unfold. unfold root_path.
  rewrite He, Hex. cbn [negb].
  repeat match goal with |- context [if ?b then _ else _] => destruct b end;
    discriminate.
Qed.

Lemma decode_then_encode_witness :
  decode_dir_name "models--acme--Foo-7B" = Some "acme/Foo-7B" /\
  model_dir_name "acme/Foo-7B" = "models--acme--Foo-7B".
Proof.
  destruct (decode_then_encode "acme--Foo-7B" "acme" "Foo-7B" eq_refl eq_refl)
    as (H1 & H2 & _).
  split; [exact H1 | exact H2].
Defined.

(** X19. A directory name whose remainder splits into three parts or more
    (and has no [/]) is decoded to a model whose own directory name is a
    different, shorter one: the functions that take the decoded name look
    at another directory than the one discovered. *)
Theorem decode_collapse_changes_directory (rest : string) (parts : list string) :
  PyStr.split "--" rest = Some parts ->
  3 <= length parts ->
  PyStr.contains "/" rest = false ->
  exists id,
    decode_dir_name ("models--" ++ rest)%string = Some id /\
    String.length (model_dir_name id)
    < String.length ("models--" ++ rest)%string /\
    model_dir_name id <> ("models--" ++ rest)%string.
Proof.
  intros Hs Hlen Hf.
  destruct parts as [|org [|p1 [|p2 ps]]]; try (simpl in Hlen; lia).
  exists (org ++ "/" ++ PyStr.join "-" (p1 :: p2 :: ps))%string.
  assert (Hd : decode_dir_name ("models--" ++ rest)%string
               = Some (org ++ "/" ++ PyStr.join "-" (p1 :: p2 :: ps))%string)
    by (now rewrite decode_prefixed, Hs).
  assert (Hrest : rest
                  = (org ++ "--" ++ PyStr.join "--" (p1 :: p2 :: ps))%string).
  { injection Hs as Hs. rewrite <- (join_split_loop "-" "-" rest), Hs.
    now rewrite join_cons. }
  assert (Hl : String.length
                 (model_dir_name
                    (org ++ "/" ++ PyStr.join "-" (p1 :: p2 :: ps))%string)
               < String.length ("models--" ++ rest)%string).
  { apply contains_false in Hf. rewrite Hrest in Hf.
    apply find_char_app_inv in Hf as [Ho Hn].
    apply find_char_app_inv in Hn as [_ Hn].
    rewrite model_dir_name_pair;
      [|now apply contains_false
       |apply contains_false; now apply (find_char_join "/" "--" "-")].
    rewrite Hrest. cbn [PyStr.join String.concat].
    pose proof (join_length_lt (p1 :: p2 :: ps)) as J.
    unfold PyStr.join in J. cbn [String.concat] in J.
    rewrite !str_length_app in *. simpl String.length in *.
    simpl length in J. lia. }
  split; [exact Hd|]. split; [exact Hl|].
  intros Heq. rewrite Heq in Hl. lia.
Qed.

Lemma decode_collapse_changes_directory_witness :
  exists id,
    decode_dir_name "models--org--a--b" = Some id /\
    model_dir_name id <> "models--org--a--b".
Proof.
  destruct (decode_collapse_changes_directory "org--a--b" ["org"; "a"; "b"])
    as (id & Hd & _ & Hn).
  - reflexivity.
  - simpl. lia.
  - reflexivity.
  - exists id. split; [exact Hd | exact Hn].
Defined.
